(** * Data-retention pruning for partitioned PostgreSQL tables

    A shallow embedding of the repository's two generations of the pruning
    code:

    - [Legacy]: [src/models.py], driven by [src/prune_postgres.py];
    - [Server]: [src/apps/prune_server/models.py], driven by the [/prune]
      endpoint of [src/apps/prune_server/main.py].

    The Python library functions the code calls ([str.split], slicing,
    [re.match], [datetime.strptime], [datetime] arithmetic) are modelled in
    [Py].  Names are strings of 8-bit characters (code points 0..255); in
    that range the only decimal digits known to [\d] are [0]..[9].
    [re.match] is modelled on a fragment of the pattern language; the
    pruning code takes the matcher as a parameter, so what is proved of the
    passes holds for every matcher, and what is proved of the name filter
    is proved on the fragment.  [Unicode] holds the same matcher on
    strings of code points, where [\d] matches the decimal digits of every
    script; the filter is characterised there, and [re_match_agrees] shows
    that the matcher of [Py] is its restriction to 8-bit strings.

    The database session and the clock are the program's environment: every
    statement sent to the session and every clock reading is an [event]
    appended to a history, and the environment answers each request as a
    function of the history so far.  Nothing is assumed about these answers
    unless a statement says so. *)

From Stdlib Require Import String Ascii List ZArith Bool Arith Lia.
Import ListNotations.
Local Open Scope list_scope.

(* ------------------------------------------------------------------ *)
(** * Python values and exceptions *)
(* ------------------------------------------------------------------ *)

Module Py.

(** Why [datetime.strptime] raised its [ValueError]. *)
Inductive strptime_failure : Type :=
| DoesNotMatchFormat            (* time data ... does not match format ... *)
| UnconvertedData (rest : string)  (* unconverted data remains: rest *)
| FieldOutOfRange.              (* raised by the date / datetime constructor *)

(** The exceptions the modelled code can see.  All are subclasses of
    [Exception]. *)
Inductive exn : Type :=
| ValueError (msg : string)           (* raise ValueError(msg) in the repository *)
| StrptimeError (why : strptime_failure)  (* a ValueError raised by strptime *)
| IndexError                          (* list index out of range *)
| TypeError                           (* subscripting None *)
| AttributeError                      (* an attribute of None *)
| OverflowError                       (* timedelta / datetime arithmetic out of range *)
| ReError                             (* re.error: the pattern does not compile *)
| DbError (msg : string)              (* psycopg.Error and its subclasses,
                                         OperationalError apart *)
| OperationalError (msg : string)     (* psycopg.OperationalError *)
| HTTPException (status_code : Z) (detail : exn).

Inductive result (A : Type) : Type :=
| Ok (a : A)
| Raise (e : exn).
Arguments Ok {A} a.
Arguments Raise {A} e.

(** [isinstance(e, ValueError)] *)
Definition is_ValueError (e : exn) : bool :=
  match e with
  | ValueError _ | StrptimeError _ => true
  | _ => false
  end.

(** [isinstance(e, (IndexError, ValueError))] *)
Definition is_IndexError_or_ValueError (e : exn) : bool :=
  match e with
  | IndexError => true
  | _ => is_ValueError e
  end.

(** [isinstance(e, HTTPException)] *)
Definition is_HTTPException (e : exn) : bool :=
  match e with
  | HTTPException _ _ => true
  | _ => false
  end.

(* ------------------------------------------------------------------ *)
(** ** Characters *)

Definition LF : ascii := ascii_of_nat 10.

Definition is_digit (c : ascii) : bool :=
  let n := nat_of_ascii c in (48 <=? n) && (n <=? 57).

(** [c] is a decimal digit between the digits [lo] and [hi] (given as numbers). *)
Definition digit_in (lo hi : nat) (c : ascii) : bool :=
  let n := nat_of_ascii c in (48 + lo <=? n) && (n <=? 48 + hi).

(** [str.isspace] on code points 0..255, which is what [\s] matches. *)
Definition is_space (c : ascii) : bool :=
  let n := nat_of_ascii c in
  ((9 <=? n) && (n <=? 13)) || ((28 <=? n) && (n <=? 32))
  || (n =? 133) || (n =? 160).

(** [[A-Za-z0-9_]] *)
Definition is_word_char (c : ascii) : bool :=
  let n := nat_of_ascii c in
  ((48 <=? n) && (n <=? 57)) || ((65 <=? n) && (n <=? 90))
  || ((97 <=? n) && (n <=? 122)) || (n =? 95).

Fixpoint string_forallb (p : ascii -> bool) (s : string) : bool :=
  match s with
  | EmptyString => true
  | String c s' => p c && string_forallb p s'
  end.

(* ------------------------------------------------------------------ *)
(** ** [str.split] with the two constant separators the code uses, and
       list indexing *)

Definition cons_head (c : ascii) (l : list string) : list string :=
  match l with
  | [] => [String c EmptyString]
  | h :: t => String c h :: t
  end.

(** [s.split(sep)] for a one-character separator. *)
Fixpoint split1 (sep : ascii) (s : string) : list string :=
  match s with
  | EmptyString => [EmptyString]
  | String c s' =>
      if Ascii.eqb c sep then EmptyString :: split1 sep s'
      else cons_head c (split1 sep s')
  end.

(** [s.split(sep)] for a two-character separator [sep1 sep2]: occurrences
    are found left to right and do not overlap. *)
Fixpoint split2 (sep1 sep2 : ascii) (s : string) : list string :=
  match s with
  | EmptyString => [EmptyString]
  | String c s' =>
      match s' with
      | String d s'' =>
          if Ascii.eqb c sep1 && Ascii.eqb d sep2
          then EmptyString :: split2 sep1 sep2 s''
          else cons_head c (split2 sep1 sep2 s')
      | EmptyString => [String c EmptyString]
      end
  end.

(** [l[i]] for [i >= 0] *)
Definition index {A} (l : list A) (i : nat) : result A :=
  match nth_error l i with
  | Some x => Ok x
  | None => Raise IndexError
  end.

(** [l[-i]] for [i >= 1] *)
Definition index_from_end {A} (l : list A) (i : nat) : result A :=
  match i with
  | O => Raise IndexError
  | S k => index (rev l) k
  end.

(** [s[lo:hi]] for [0 <= lo <= hi] *)
Definition slice (lo hi : nat) (s : string) : string :=
  substring lo (hi - lo) s.

(* ------------------------------------------------------------------ *)
(** ** [re.match] on a fragment of the pattern language

    The fragment: literal characters, [.], [\d], the anchors [^] and [$],
    and the counted repetition [{n}] of a single character item.  A pattern
    that uses anything else ([* + ? | ( ) [ ]], other escapes, other uses of
    braces) is outside the fragment and [re_compile] answers [None] for it.
    No flags are set: [^] matches at the start of the string only, [.] does
    not match a line feed, and [$] matches at the end of the string and also
    just before a line feed that ends the string. *)

Inductive atom : Type :=
| ALit (c : ascii)
| AAny
| ADigit.

Inductive node : Type :=
| NAtom (a : atom) (n : nat)   (* a{n}; a bare item is a{1} *)
| NBol
| NEol.

Inductive pstate : Type :=
| PStart                              (* no item pending *)
| PAtom (a : atom)                    (* an item was read; {n} may follow *)
| PEsc                                (* after a backslash *)
| PCount (a : atom) (n : option nat). (* inside the braces after item a *)

Definition is_unsupported_special (c : ascii) : bool :=
  existsb (Ascii.eqb c)
    ["*"; "+"; "?"; "|"; "("; ")"; "["; "]"; "{"; "}"]%char.

Definition digit_value (c : ascii) : nat := nat_of_ascii c - 48.

Fixpoint compile_go (st : pstate) (acc : list node) (s : string)
  : option (list node) :=
  match s with
  | EmptyString =>
      match st with
      | PStart => Some (rev acc)
      | PAtom a => Some (rev (NAtom a 1 :: acc))
      | PEsc => None
      | PCount _ _ => None
      end
  | String c s' =>
      let start (acc' : list node) :=
        if Ascii.eqb c "^" then compile_go PStart (NBol :: acc') s'
        else if Ascii.eqb c "$" then compile_go PStart (NEol :: acc') s'
        else if Ascii.eqb c "." then compile_go (PAtom AAny) acc' s'
        else if Ascii.eqb c "\" then compile_go PEsc acc' s'
        else if is_unsupported_special c then None
        else compile_go (PAtom (ALit c)) acc' s' in
      match st with
      | PStart => start acc
      | PAtom a =>
          if Ascii.eqb c "{" then compile_go (PCount a None) acc s'
          else start (NAtom a 1 :: acc)
      | PEsc =>
          if Ascii.eqb c "d" then compile_go (PAtom ADigit) acc s' else None
      | PCount a n =>
          if is_digit c then
            compile_go
              (PCount a (Some (10 * match n with Some k => k | None => 0 end
                               + digit_value c))) acc s'
          else if Ascii.eqb c "}" then
            match n with
            | Some k => compile_go PStart (NAtom a k :: acc) s'
            | None => None
            end
          else None
      end
  end.

Definition re_compile (pattern : string) : option (list node) :=
  compile_go PStart [] pattern.

Definition atom_matches (a : atom) (c : ascii) : bool :=
  match a with
  | ALit x => Ascii.eqb c x
  | AAny => negb (Ascii.eqb c LF)
  | ADigit => is_digit c
  end.

Fixpoint match_repeat (a : atom) (n : nat) (s : string) : option string :=
  match n with
  | O => Some s
  | S k =>
      match s with
      | String c s' => if atom_matches a c then match_repeat a k s' else None
      | EmptyString => None
      end
  end.

(** Where [$] matches: at the end, or before a final line feed. *)
Definition at_end (s : string) : bool :=
  match s with
  | EmptyString => true
  | String c EmptyString => Ascii.eqb c LF
  | _ => false
  end.

Fixpoint match_nodes (ns : list node) (pos : nat) (s : string) : bool :=
  match ns with
  | [] => true
  | NBol :: r => (pos =? 0) && match_nodes r pos s
  | NEol :: r => at_end s && match_nodes r pos s
  | NAtom a n :: r =>
      match match_repeat a n s with
      | Some s' => match_nodes r (pos + n) s'
      | None => false
      end
  end.

(** [re.match(pattern, s) is not None], for patterns of the fragment. *)
Definition re_match (pattern s : string) : option bool :=
  match re_compile pattern with
  | Some ns => Some (match_nodes ns 0 s)
  | None => None
  end.

(** The library as the engine sees it: a match, no match, or [re.error].
    [re_match_lib] is the instance used to run the engine on concrete
    inputs, all of them tables whose pattern is in the fragment, where it
    is [re_match].  Outside the fragment it answers [re.error]; Python
    does so for a pattern that does not compile, and not for the patterns
    it compiles and the fragment lacks, so nothing is concluded from that
    answer. *)
Definition re_match_lib (pattern s : string) : result bool :=
  match re_match pattern s with
  | Some b => Ok b
  | None => Raise ReError
  end.

(* ------------------------------------------------------------------ *)
(** ** [datetime] *)

(** A [datetime]; where it is aware, its [tzinfo] is UTC. *)
Record datetime : Type := mk_datetime {
  year : Z; month : Z; day : Z;
  hour : Z; minute : Z; second : Z; microsecond : Z }.

Definition is_leap (y : Z) : bool :=
  ((y mod 4 =? 0) && (negb (y mod 100 =? 0) || (y mod 400 =? 0)))%Z.

Definition days_in_month (y m : Z) : Z :=
  (if (m =? 2) && is_leap y then 29
   else nth (Z.to_nat m) [0; 31; 28; 31; 30; 31; 30; 31; 31; 30; 31; 30; 31] 0)%Z.

Definition days_before_month (y m : Z) : Z :=
  (nth (Z.to_nat m) [0; 0; 31; 59; 90; 120; 151; 181; 212; 243; 273; 304; 334] 0
   + (if (2 <? m) && is_leap y then 1 else 0))%Z.

Definition days_before_year (y : Z) : Z :=
  (let y' := y - 1 in y' * 365 + y' / 4 - y' / 100 + y' / 400)%Z.

Definition ymd2ord (y m d : Z) : Z :=
  (days_before_year y + days_before_month y m + d)%Z.

(** What the [date] and [datetime] constructors check. *)
Definition valid_datetime (d : datetime) : bool :=
  ((1 <=? year d) && (year d <=? 9999)
   && (1 <=? month d) && (month d <=? 12)
   && (1 <=? day d) && (day d <=? days_in_month (year d) (month d))
   && (0 <=? hour d) && (hour d <=? 23)
   && (0 <=? minute d) && (minute d <=? 59)
   && (0 <=? second d) && (second d <=? 59)
   && (0 <=? microsecond d) && (microsecond d <=? 999999))%Z.

(** Microseconds since 0001-01-01T00:00:00. *)
Definition to_us (d : datetime) : Z :=
  ((((ymd2ord (year d) (month d) (day d) - 1) * 86400
     + hour d * 3600 + minute d * 60 + second d) * 1000000)
   + microsecond d)%Z.

(** [datetime.max] in microseconds: 9999-12-31T23:59:59.999999. *)
Definition MAX_US : Z := to_us (mk_datetime 9999 12 31 23 59 59 999999).

(** [datetime.timedelta(seconds=s)], in microseconds. *)
Definition timedelta_seconds (s : Z) : result Z :=
  (if (-999999999 <=? s / 86400) && (s / 86400 <=? 999999999)
   then Ok (s * 1000000)
   else Raise OverflowError)%Z.

(** [dt - delta] on a datetime given in microseconds. *)
Definition datetime_sub (dt_us delta_us : Z) : result Z :=
  (let r := dt_us - delta_us in
   if (0 <=? r) && (r <=? MAX_US) then Ok r else Raise OverflowError)%Z.

(* ------------------------------------------------------------------ *)
(** ** [datetime.strptime]

    [_strptime] turns the format into a regular expression, one group of
    alternatives per directive and [\s+] for a run of blanks, matches it at
    the start of the data with the usual leftmost-alternative-first
    backtracking, refuses data left unconverted, and hands the numbers to
    the [datetime] constructor. *)

Inductive directive : Type := DY | Dm | Dd | DH | DM | DS | DSpaces.

Definition is_char (x c : ascii) : bool := Ascii.eqb c x.

(** The alternatives of a directive's group, each a sequence of character
    classes, in the order the library lists them. *)
Definition alternatives (d : directive) : list (list (ascii -> bool)) :=
  match d with
  | DY => [[is_digit; is_digit; is_digit; is_digit]]
  | Dm => [[is_char "1"; digit_in 0 2]; [is_char "0"; digit_in 1 9];
           [digit_in 1 9]]
  | Dd => [[is_char "3"; digit_in 0 1]; [digit_in 1 2; is_digit];
           [is_char "0"; digit_in 1 9]; [digit_in 1 9];
           [is_char " "; digit_in 1 9]]
  | DH => [[is_char "2"; digit_in 0 3]; [digit_in 0 1; is_digit]; [is_digit]]
  | DM => [[digit_in 0 5; is_digit]; [is_digit]]
  | DS => [[is_char "6"; digit_in 0 1]; [digit_in 0 5; is_digit]; [is_digit]]
  | DSpaces => []
  end.

(** Match a sequence of character classes at the start of [s]: the text
    matched and the rest. *)
Fixpoint match_classes (cs : list (ascii -> bool)) (s : string)
  : option (string * string) :=
  match cs with
  | [] => Some (EmptyString, s)
  | p :: cs' =>
      match s with
      | String c s' =>
          if p c then
            match match_classes cs' s' with
            | Some (m, r) => Some (String c m, r)
            | None => None
            end
          else None
      | EmptyString => None
      end
  end.

Definition captures : Type := list (directive * string).

(** [\s+] followed by [k]: greedy, giving blanks back one at a time. *)
Fixpoint spaces_then {A} (k : string -> option A) (s : string) : option A :=
  match s with
  | String c s' =>
      if is_space c then
        match spaces_then k s' with
        | Some r => Some r
        | None => k s'
        end
      else None
  | EmptyString => None
  end.

(** The alternatives of a group, leftmost first; [k] is what follows the
    group, and an alternative whose continuation fails gives way to the
    next one. *)
Fixpoint try_alternatives {A} (k : string -> string -> option A)
    (alts : list (list (ascii -> bool))) (s : string) : option A :=
  match alts with
  | [] => None
  | a :: alts' =>
      match match_classes a s with
      | Some (m, r) =>
          match k m r with
          | Some x => Some x
          | None => try_alternatives k alts' s
          end
      | None => try_alternatives k alts' s
      end
  end.

Fixpoint match_format (fmt : list directive) (s : string)
  : option (captures * string) :=
  match fmt with
  | [] => Some ([], s)
  | DSpaces :: fmt' => spaces_then (match_format fmt') s
  | d :: fmt' =>
      try_alternatives
        (fun m r =>
           match match_format fmt' r with
           | Some (caps, rest) => Some ((d, m) :: caps, rest)
           | None => None
           end)
        (alternatives d) s
  end.

(** [int(text)] for a captured group: digits, possibly after a blank. *)
Fixpoint int_of_group (acc : Z) (s : string) : Z :=
  match s with
  | EmptyString => acc
  | String c s' =>
      if is_digit c
      then int_of_group (10 * acc + Z.of_nat (digit_value c)) s'
      else int_of_group acc s'
  end.

Definition directive_eqb (a b : directive) : bool :=
  match a, b with
  | DY, DY | Dm, Dm | Dd, Dd | DH, DH | DM, DM | DS, DS
  | DSpaces, DSpaces => true
  | _, _ => false
  end.

Fixpoint field (d : directive) (default : Z) (caps : captures) : Z :=
  match caps with
  | [] => default
  | (d', m) :: caps' =>
      if directive_eqb d d' then int_of_group 0 m else field d default caps'
  end.

Definition strptime (s : string) (fmt : list directive) : result datetime :=
  match match_format fmt s with
  | None => Raise (StrptimeError DoesNotMatchFormat)
  | Some (caps, EmptyString) =>
      let d := mk_datetime (field DY 1900 caps) (field Dm 1 caps)
                 (field Dd 1 caps) (field DH 0 caps) (field DM 0 caps)
                 (field DS 0 caps) 0 in
      if valid_datetime d then Ok d
      else Raise (StrptimeError FieldOutOfRange)
  | Some (_, rest) => Raise (StrptimeError (UnconvertedData rest))
  end.

(** ["%Y%m%d%H%M%S"] *)
Definition fmt_compact : list directive := [DY; Dm; Dd; DH; DM; DS].
(** ["%Y%m%d %H%M%S"] *)
Definition fmt_spaced : list directive := [DY; Dm; Dd; DSpaces; DH; DM; DS].

End Py.

Import Py.

(* ------------------------------------------------------------------ *)
(** * [re.match] on [str]: strings of Unicode code points *)
(* ------------------------------------------------------------------ *)

(** A Python [str] is a sequence of code points, and in a [str] pattern
    [\d] matches every decimal digit the interpreter's Unicode database
    knows (the category Nd): [0]..[9] and the decimal digits of the other
    scripts.  That table depends on the interpreter; it is the parameter
    [isdecimal] here.  The fragment of the pattern language and the
    matcher are those of [Py], over code points. *)

Module Unicode.

Definition str : Type := list N.

(** The code point of an 8-bit character. *)
Definition chr (c : ascii) : N := N_of_ascii c.

Fixpoint of_string (s : string) : str :=
  match s with
  | EmptyString => []
  | String c s' => chr c :: of_string s'
  end.

Definition LF : N := 10.

Inductive atom : Type :=
| ALit (c : N)
| AAny
| ADigit.

Inductive node : Type :=
| NAtom (a : atom) (n : nat)   (* a{n}; a bare item is a{1} *)
| NBol
| NEol.

Inductive pstate : Type :=
| PStart
| PAtom (a : atom)
| PEsc
| PCount (a : atom) (n : option nat).

Definition is_unsupported_special (c : N) : bool :=
  existsb (N.eqb c)
    (map chr ["*"; "+"; "?"; "|"; "("; ")"; "["; "]"; "{"; "}"]%char).

(** The characters with a meaning of their own in a pattern:
    [. ^ $ * + ? { } [ ] \ | ( )]. *)
Definition is_special (c : N) : bool :=
  existsb (N.eqb c) (map chr ["^"; "$"; "."; "\"]%char)
  || is_unsupported_special c.

(** Letters, digits and the underscore: [[A-Za-z0-9_]], and every code
    point beyond ASCII, where the letters and digits of the other scripts
    lie. *)
Definition is_word_char (c : N) : bool :=
  (((48 <=? c) && (c <=? 57)) || ((65 <=? c) && (c <=? 90))
   || ((97 <=? c) && (c <=? 122)) || (c =? 95) || (128 <=? c))%N.

(** The digits of a repetition count are [0]..[9], whatever [\d] matches. *)
Definition is_count_digit (c : N) : bool := ((48 <=? c) && (c <=? 57))%N.

Definition digit_value (c : N) : nat := N.to_nat (c - 48).

Fixpoint compile_go (st : pstate) (acc : list node) (s : str)
  : option (list node) :=
  match s with
  | [] =>
      match st with
      | PStart => Some (rev acc)
      | PAtom a => Some (rev (NAtom a 1 :: acc))
      | PEsc => None
      | PCount _ _ => None
      end
  | c :: s' =>
      let start (acc' : list node) :=
        if N.eqb c (chr "^") then compile_go PStart (NBol :: acc') s'
        else if N.eqb c (chr "$") then compile_go PStart (NEol :: acc') s'
        else if N.eqb c (chr ".") then compile_go (PAtom AAny) acc' s'
        else if N.eqb c (chr "\") then compile_go PEsc acc' s'
        else if is_unsupported_special c then None
        else compile_go (PAtom (ALit c)) acc' s' in
      match st with
      | PStart => start acc
      | PAtom a =>
          if N.eqb c (chr "{") then compile_go (PCount a None) acc s'
          else start (NAtom a 1 :: acc)
      | PEsc =>
          if N.eqb c (chr "d") then compile_go (PAtom ADigit) acc s' else None
      | PCount a n =>
          if is_count_digit c then
            compile_go
              (PCount a (Some (10 * match n with Some k => k | None => 0 end
                               + digit_value c))) acc s'
          else if N.eqb c (chr "}") then
            match n with
            | Some k => compile_go PStart (NAtom a k :: acc) s'
            | None => None
            end
          else None
      end
  end.

Definition re_compile (pattern : str) : option (list node) :=
  compile_go PStart [] pattern.

(** Where [$] matches: at the end, or before a final line feed. *)
Definition at_end (s : str) : bool :=
  match s with
  | [] => true
  | [c] => N.eqb c LF
  | _ => false
  end.

(** [f"^{self.table_name}_p\\d{{8}}_\\d{{6}}$"] *)
Definition partition_pattern (table_name : str) : str :=
  chr "^" :: table_name ++ of_string "_p\d{8}_\d{6}$".

(** The nodes of a literal text. *)
Fixpoint literal_nodes (w : str) : list node :=
  match w with
  | [] => []
  | c :: w' => NAtom (ALit c) 1 :: literal_nodes w'
  end.

(** The nodes of the constant tail [_p\d{8}_\d{6}$]. *)
Definition tail_nodes : list node :=
  [NAtom (ALit (chr "_")) 1; NAtom (ALit (chr "p")) 1; NAtom ADigit 8;
   NAtom (ALit (chr "_")) 1; NAtom ADigit 6; NEol].

(** The nodes read so far, the pending item included. *)
Definition flush (st : pstate) (acc : list node) : list node :=
  match st with
  | PAtom a => NAtom a 1 :: acc
  | _ => acc
  end.

Definition between_items (st : pstate) : Prop :=
  st = PStart \/ exists a, st = PAtom a.

Section Match.
Variable isdecimal : N -> bool.

Definition atom_matches (a : atom) (c : N) : bool :=
  match a with
  | ALit x => N.eqb c x
  | AAny => negb (N.eqb c LF)
  | ADigit => isdecimal c
  end.

Fixpoint match_repeat (a : atom) (n : nat) (s : str) : option str :=
  match n with
  | O => Some s
  | S k =>
      match s with
      | c :: s' => if atom_matches a c then match_repeat a k s' else None
      | [] => None
      end
  end.

Fixpoint match_nodes (ns : list node) (pos : nat) (s : str) : bool :=
  match ns with
  | [] => true
  | NBol :: r => (pos =? 0) && match_nodes r pos s
  | NEol :: r => at_end s && match_nodes r pos s
  | NAtom a n :: r =>
      match match_repeat a n s with
      | Some s' => match_nodes r (pos + n) s'
      | None => false
      end
  end.

(** [re.match(pattern, s) is not None], for patterns of the fragment. *)
Definition re_match (pattern s : str) : option bool :=
  match re_compile pattern with
  | Some ns => Some (match_nodes ns 0 s)
  | None => None
  end.

(** [n] characters that [\d] matches. *)
Definition digits (n : nat) (d : str) : Prop :=
  length d = n /\ forallb isdecimal d = true.

(** The naming convention: the parent's name, [_p], eight characters
    that [\d] matches, [_], and six more. *)
Definition is_convention_name (parent name : str) : Prop :=
  exists date time,
    digits 8 date /\ digits 6 time
    /\ name = parent ++ of_string "_p" ++ date ++ of_string "_" ++ time.

End Match.

(** A table of decimal digits to run the matcher with: [0]..[9], the
    Arabic-Indic digits (U+0660..U+0669) and the fullwidth digits
    (U+FF10..U+FF19), three of the blocks of the category Nd. *)
Definition three_blocks (c : N) : bool :=
  (((48 <=? c) && (c <=? 57)) || ((1632 <=? c) && (c <=? 1641))
   || ((65296 <=? c) && (c <=? 65305)))%N.

End Unicode.

(* ------------------------------------------------------------------ *)
(** * The data classes (the same in both generations of [models.py]) *)
(* ------------------------------------------------------------------ *)

Record DataRetentionPolicyConditions : Type := {
  column : string;
  operator : string;
  value : string }.

Record DataRetentionPolicyTimeRetention : Type := {
  dt_target_column : string;
  retention_seconds : Z }.

Record DataRetentionPolicy : Type := {
  timeretention : option DataRetentionPolicyTimeRetention;
  conditions : option (list DataRetentionPolicyConditions) }.

Record PostgresTableModel : Type := {
  table_name : string;
  schema : string;
  retention_policy : option DataRetentionPolicy }.

(** Truth value of [self.timeretention]: an instance of the data class is
    true, [None] is false. *)
Definition timeretention_set (p : DataRetentionPolicy) : bool :=
  match timeretention p with
  | Some _ => true
  | None => false
  end.

(** Truth value of [self.conditions]: a list is true when it is not empty;
    [None] is false. *)
Definition conditions_set (p : DataRetentionPolicy) : bool :=
  match conditions p with
  | Some (_ :: _) => true
  | _ => false
  end.

(* ------------------------------------------------------------------ *)
(** * The environment: database session and clock *)
(* ------------------------------------------------------------------ *)

(** The lines the pruning code prints. *)
Inductive note : Type :=
| SkipNoTimeRetention
| SkipFormat (partition_name : string)
| SkipParse (partition_name : string) (e : exn)
| Attempting (partition_name : string) (partition_time cutoff : Z)
| Dropped (partition_name : string)
| DropError (partition_name : string) (e : exn)
| NotDropped (partition_name : string)
| SkipNoConditions
| ConditionsNotImplemented.

(** What the program did to its environment, with the answer it got. *)
Inductive event : Type :=
| Connect (r : result unit)
| Close
| SelectTableExists (table_name schema : string) (r : result (option bool))
    (* SELECT EXISTS (... information_schema.tables ...); fetchone():
       the row's boolean, or no row *)
| SelectPartitions (table_name : string) (schema : option string)
    (r : result (list string))
    (* child.relname of pg_inherits for the parent, with the parent's
       namespace when the query gives one; fetchall() *)
| DropTableIfExists (schema name : string) (r : result unit)
| DeleteWhereCondition (schema name : string) (r : result unit)
| Commit (r : result unit)
| NowUtc (t : Z)       (* datetime.now(timezone.utc), in microseconds *)
| NowLocal (t : Z)     (* datetime.now(): the host's wall clock *)
| Printed (n : note).

Definition history : Type := list event.

Record environment : Type := {
  connect_reply : history -> result unit;
  table_exists_reply : history -> string -> string -> result (option bool);
  partitions_reply : history -> string -> option string -> result (list string);
  drop_reply : history -> string -> string -> result unit;
  delete_reply : history -> string -> string -> result unit;
  commit_reply : history -> result unit;
  now_utc : history -> Z;
  now_local : history -> Z }.

(** Computations that raise and that talk to the environment.  What was
    done before an exception stays done. *)
Definition M (A : Type) : Type := history -> result A * history.

Definition ret {A} (a : A) : M A := fun h => (Ok a, h).

Definition raise {A} (e : exn) : M A := fun h => (Raise e, h).

Definition bind {A B} (m : M A) (k : A -> M B) : M B :=
  fun h =>
    match m h with
    | (Ok a, h') => k a h'
    | (Raise e, h') => (Raise e, h')
    end.

Definition lift {A} (r : result A) : M A := fun h => (r, h).

(** [try: m  except <handles> as e: handler(e)] *)
Definition try_except {A} (m : M A) (handles : exn -> bool)
    (handler : exn -> M A) : M A :=
  fun h =>
    match m h with
    | (Ok a, h') => (Ok a, h')
    | (Raise e, h') => if handles e then handler e h' else (Raise e, h')
    end.

(** [try: m  finally: f] *)
Definition try_finally {A} (m : M A) (f : M unit) : M A :=
  fun h =>
    match m h with
    | (r, h') =>
        match f h' with
        | (Ok _, h'') => (r, h'')
        | (Raise e, h'') => (Raise e, h'')
        end
    end.

Declare Scope M_scope.
Delimit Scope M_scope with M.
Notation "x <- m ;; k" := (bind m (fun x => k))
  (at level 61, m at next level, right associativity) : M_scope.
Notation "m ;; k" := (bind m (fun _ => k))
  (at level 61, right associativity) : M_scope.
Local Open Scope M_scope.

Fixpoint for_each {A} (body : A -> M unit) (l : list A) : M unit :=
  match l with
  | [] => ret tt
  | x :: l' => body x ;; for_each body l'
  end.

Definition print (n : note) : M unit := fun h => (Ok tt, h ++ [Printed n]).

Section Session.
Variable env : environment.

Definition connect : M unit :=
  fun h => let r := connect_reply env h in (r, h ++ [Connect r]).

Definition close : M unit := fun h => (Ok tt, h ++ [Close]).

Definition select_table_exists (table_name schema : string)
  : M (option bool) :=
  fun h => let r := table_exists_reply env h table_name schema in
           (r, h ++ [SelectTableExists table_name schema r]).

Definition select_partitions (table_name : string) (schema : option string)
  : M (list string) :=
  fun h => let r := partitions_reply env h table_name schema in
           (r, h ++ [SelectPartitions table_name schema r]).

Definition drop_table_if_exists (schema name : string) : M unit :=
  fun h => let r := drop_reply env h schema name in
           (r, h ++ [DropTableIfExists schema name r]).

Definition delete_where_condition (schema name : string) : M unit :=
  fun h => let r := delete_reply env h schema name in
           (r, h ++ [DeleteWhereCondition schema name r]).

Definition commit : M unit :=
  fun h => let r := commit_reply env h in (r, h ++ [Commit r]).

Definition datetime_now_utc : M Z :=
  fun h => let t := now_utc env h in (Ok t, h ++ [NowUtc t]).

Definition datetime_now : M Z :=
  fun h => let t := now_local env h in (Ok t, h ++ [NowLocal t]).

End Session.

(** The pattern both generations build for a table:
    [f"^{self.table_name}_p\\d{{8}}_\\d{{6}}$"]. *)
Definition partition_pattern (table_name : string) : string :=
  ("^" ++ table_name ++ "_p\d{8}_\d{6}$")%string.

(** [timezone(timedelta(hours=-5))] as an offset in microseconds. *)
Definition FIVE_HOURS_US : Z := 5 * 3600 * 1000000.

(* ------------------------------------------------------------------ *)
(** * [src/models.py] and [src/prune_postgres.py] *)
(* ------------------------------------------------------------------ *)

Module Legacy.

Module DataRetentionPolicy.

Definition validate (self : DataRetentionPolicy) : result bool :=
  if negb (timeretention_set self) && negb (conditions_set self) then
    Raise (ValueError "Either timeretention or conditions must be provided")
  else if timeretention_set self && conditions_set self then
    Raise (ValueError "Only one of timeretention or conditions can be provided")
  else Ok true.

End DataRetentionPolicy.

Module PostgresTableModel.

(** Lines 115-120 of [_drop_table]: the partition's timestamp from its
    name. *)
Definition partition_datetime (partition_name : string) : result datetime :=
  match index_from_end (split1 "_" partition_name) 2 with
  | Raise e => Raise e
  | Ok partition_date_str =>
      let partition_date := slice 1 9 partition_date_str in
      match index_from_end (split1 "_" partition_name) 1 with
      | Raise e => Raise e
      | Ok partition_time_str =>
          strptime (partition_date ++ " " ++ partition_time_str)%string
            fmt_spaced
      end
  end.

Section Methods.
Variable re_match : string -> string -> result bool.
Variable env : environment.

Definition validate (self : PostgresTableModel) : M bool :=
  let table_exists := false in
  row <- select_table_exists env (table_name self) (schema self) ;;
  exists_ <- match row with
             | Some b => ret b
             | None => raise TypeError
             end ;;
  let table_exists := if negb exists_ then false else table_exists in
  let table_exists := true in
  valid_table <- match retention_policy self with
                 | Some p => lift (DataRetentionPolicy.validate p)
                 | None => ret true
                 end ;;
  ret (table_exists && valid_table).

(** The body of the loop over [child_partitions]. *)
Definition drop_partition_if_old (self : PostgresTableModel)
    (partition_name : string) : M unit :=
  let pattern := partition_pattern (table_name self) in
  matched <- lift (re_match pattern partition_name) ;;
  if negb matched then print (SkipFormat partition_name)
  else
    partition_datetime <- lift (partition_datetime partition_name) ;;
    retention_seconds <-
      match retention_policy self with
      | Some p =>
          match timeretention p with
          | Some tr => ret (retention_seconds tr)
          | None => raise AttributeError
          end
      | None => raise AttributeError
      end ;;
    retention_time <- lift (timedelta_seconds retention_seconds) ;;
    now <- datetime_now env ;;
    retention_date <- lift (datetime_sub now retention_time) ;;
    (* retention_date.replace(tzinfo=UTC-5): the wall-clock reading is
       taken to be five hours behind UTC when the two are compared *)
    if (to_us partition_datetime <? retention_date + FIVE_HOURS_US)%Z then
      drop_table_if_exists env (schema self) partition_name ;;
      print (Dropped partition_name)
    else print (NotDropped partition_name).

Definition _drop_table (self : PostgresTableModel) : M unit :=
  child_partitions <- select_partitions env (table_name self) None ;;
  for_each (drop_partition_if_old self) child_partitions ;;
  commit env ;;
  drop_table_if_exists env (schema self) (table_name self) ;;
  commit env.

Definition _delete_records (self : PostgresTableModel) : M unit :=
  delete_where_condition env (schema self) (table_name self) ;;
  commit env.

Definition prune (self : PostgresTableModel) : M unit :=
  match retention_policy self with
  | Some p =>
      if timeretention_set p then _drop_table self
      else if conditions_set p then _delete_records self
      else ret tt
  | None => ret tt
  end.

End Methods.
End PostgresTableModel.

(** [src/prune_postgres.py] *)

Definition tables : list PostgresTableModel :=
  [ {| table_name := "test_table1";
       schema := "public";
       retention_policy :=
         Some {| timeretention :=
                   Some {| dt_target_column := "mtime";
                           retention_seconds := 15 |};
                 conditions := None |} |} ].

Section Script.
Variable re_match : string -> string -> result bool.
Variable env : environment.

(** The body of [main]'s loop. *)
Definition process_table (table_model : PostgresTableModel) : M unit :=
  valid <- PostgresTableModel.validate env table_model ;;
  if negb valid then
    raise (ValueError ("Table " ++ table_name table_model
                       ++ " does not exist in schema "
                       ++ schema table_model)%string)
  else
    match retention_policy table_model with
    | Some _ => PostgresTableModel.prune re_match env table_model
    | None => ret tt
    end.

Definition main : M unit :=
  connect env ;;
  for_each process_table tables.

End Script.
End Legacy.

(* ------------------------------------------------------------------ *)
(** * [src/apps/prune_server/models.py] and [src/apps/prune_server/main.py] *)
(* ------------------------------------------------------------------ *)

Module Server.

Module DataRetentionPolicy.

Definition validate (self : DataRetentionPolicy) : result bool :=
  if negb (timeretention_set self) && negb (conditions_set self) then
    Raise (ValueError "Either timeretention or conditions must be provided")
  else if timeretention_set self && conditions_set self then
    Raise (ValueError "Only one of timeretention or conditions can be provided")
  else Ok true.

End DataRetentionPolicy.

Module PostgresTableModel.

(** Lines 117-123 of [_drop_table_partitions]: the partition's timestamp
    from its name. *)
Definition partition_datetime (partition_name : string) : result datetime :=
  match index (split2 "_" "p" partition_name) 1 with
  | Raise e => Raise e
  | Ok after_p =>
      match index (split1 "_" after_p) 0 with
      | Raise e => Raise e
      | Ok date_str_part =>
          match index_from_end (split1 "_" partition_name) 1 with
          | Raise e => Raise e
          | Ok time_str_part =>
              strptime (date_str_part ++ time_str_part)%string fmt_compact
          end
      end
  end.

Section Methods.
Variable re_match : string -> string -> result bool.
Variable env : environment.

Definition validate (self : PostgresTableModel) : M bool :=
  let table_exists := false in
  exists_result <- select_table_exists env (table_name self) (schema self) ;;
  let table_exists := match exists_result with
                      | Some b => b
                      | None => table_exists
                      end in
  let valid_policy := true in
  valid_policy <- match retention_policy self with
                  | Some p => lift (DataRetentionPolicy.validate p)
                  | None => ret valid_policy
                  end ;;
  ret (table_exists && valid_policy).

(** The body of the loop over [child_partitions]. *)
Definition drop_partition_if_old (self : PostgresTableModel)
    (retention_seconds : Z) (partition_name : string) : M unit :=
  let pattern := partition_pattern (table_name self) in
  matched <- lift (re_match pattern partition_name) ;;
  if negb matched then print (SkipFormat partition_name)
  else
    match partition_datetime partition_name with
    | Raise e =>
        if is_IndexError_or_ValueError e
        then print (SkipParse partition_name e)
        else raise e
    | Ok partition_datetime =>
        retention_delta <- lift (timedelta_seconds retention_seconds) ;;
        now <- datetime_now_utc env ;;
        cutoff_datetime <- lift (datetime_sub now retention_delta) ;;
        if (to_us partition_datetime <? cutoff_datetime)%Z then
          print (Attempting partition_name (to_us partition_datetime)
                   cutoff_datetime) ;;
          try_except
            (drop_table_if_exists env (schema self) partition_name ;;
             print (Dropped partition_name))
            (fun _ => true)
            (fun e_drop => print (DropError partition_name e_drop))
        else print (NotDropped partition_name)
    end.

Definition _drop_table_partitions (self : PostgresTableModel) : M unit :=
  child_partitions <-
    select_partitions env (table_name self) (Some (schema self)) ;;
  match retention_policy self with
  | None => print SkipNoTimeRetention
  | Some p =>
      match timeretention p with
      | None => print SkipNoTimeRetention
      | Some tr =>
          let retention_seconds := retention_seconds tr in
          for_each (drop_partition_if_old self retention_seconds)
            child_partitions ;;
          commit env
      end
  end.

Definition _delete_records_by_condition (self : PostgresTableModel) : M unit :=
  match retention_policy self with
  | None => print SkipNoConditions
  | Some p =>
      if conditions_set p then print ConditionsNotImplemented
      else print SkipNoConditions
  end.

Definition prune (self : PostgresTableModel) : M unit :=
  match retention_policy self with
  | Some p =>
      if timeretention_set p then _drop_table_partitions self
      else if conditions_set p then _delete_records_by_condition self
      else ret tt
  | None => ret tt
  end.

End Methods.
End PostgresTableModel.

(** The request and response models of [main.py]. *)

Module Api.

Record ApiDataRetentionPolicyTimeRetention : Type := {
  dt_target_column : string;
  retention_seconds : Z }.

Record ApiDataRetentionPolicyConditions : Type := {
  column : string;
  operator : string;
  value : string }.

Record ApiDataRetentionPolicy : Type := {
  timeretention : option ApiDataRetentionPolicyTimeRetention;
  conditions : option (list ApiDataRetentionPolicyConditions) }.

Record ApiTableConfig : Type := {
  table_name : string;
  schema_name : string;
  retention_policy : ApiDataRetentionPolicy }.

(** The [root_validator] of [ApiDataRetentionPolicy]; it runs when the
    request body is parsed, before [prune_tables] is entered. *)
Definition check_timeretention_or_conditions (values : ApiDataRetentionPolicy)
  : result ApiDataRetentionPolicy :=
  let timeretention := match timeretention values with
                       | Some _ => true | None => false end in
  let conditions := match conditions values with
                    | Some (_ :: _) => true | _ => false end in
  if negb timeretention && negb conditions then
    Raise (ValueError "Either 'timeretention' or 'conditions' must be provided")
  else if timeretention && conditions then
    Raise (ValueError "Only one of 'timeretention' or 'conditions' can be provided")
  else Ok values.


End Api.

Module Response.

(** The texts [prune_tables] puts in [message]. *)
Inductive message_text : Type :=
| ValidationFailed (schema_name table_name : string)
| SuccessfullyProcessed (schema table_name : string)
| NoRetentionPolicy (schema table_name : string)
| StrOf (e : exn)               (* str(ve) *)
| UnexpectedError (e : exn).    (* An unexpected error occurred: e *)

Record PruneResponseDetail : Type := {
  table_name : string;
  schema_name : string;
  status : string;
  message : option message_text }.

End Response.

Module Health.

(** The dictionary [health_check] returns. *)
Record HealthResponse : Type := {
  status : string;
  database_accessible : bool }.

End Health.

Section Endpoint.
Variable re_match : string -> string -> result bool.
Variable env : environment.

(** Lines 112-139: the domain model of one table of the request. *)
Definition table_model_of (table_config : Api.ApiTableConfig)
  : PostgresTableModel :=
  let domain_time_retention :=
    match Api.timeretention (Api.retention_policy table_config) with
    | Some tr =>
        Some {| dt_target_column := Api.dt_target_column tr;
                retention_seconds := Api.retention_seconds tr |}
    | None => None
    end in
  let domain_conditions :=
    match Api.conditions (Api.retention_policy table_config) with
    | Some (c :: cs) =>
        Some (map (fun cond => {| column := Api.column cond;
                                  operator := Api.operator cond;
                                  value := Api.value cond |}) (c :: cs))
    | _ => None
    end in
  let domain_retention_policy :=
    {| timeretention := domain_time_retention;
       conditions := domain_conditions |} in
  {| table_name := Api.table_name table_config;
     schema := Api.schema_name table_config;
     retention_policy := Some domain_retention_policy |}.

Definition detail (table_config : Api.ApiTableConfig) (status : string)
    (message : Response.message_text) : Response.PruneResponseDetail :=
  {| Response.table_name := Api.table_name table_config;
     Response.schema_name := Api.schema_name table_config;
     Response.status := status;
     Response.message := Some message |}.

(** Lines 142-173: the body of the inner [try]. *)
Definition table_pass (table_config : Api.ApiTableConfig)
  : M Response.PruneResponseDetail :=
  let table_model := table_model_of table_config in
  valid <- PostgresTableModel.validate env table_model ;;
  if negb valid then
    ret (detail table_config "error"
           (Response.ValidationFailed (Api.schema_name table_config)
              (Api.table_name table_config)))
  else
    match retention_policy table_model with
    | Some _ =>
        PostgresTableModel.prune re_match env table_model ;;
        ret (detail table_config "success"
               (Response.SuccessfullyProcessed (schema table_model)
                  (table_name table_model)))
    | None =>
        ret (detail table_config "skipped"
               (Response.NoRetentionPolicy (schema table_model)
                  (table_name table_model)))
    end.

(** Lines 141-190: the inner [try] with its two handlers. *)
Definition process_table (table_config : Api.ApiTableConfig)
  : M Response.PruneResponseDetail :=
  try_except (table_pass table_config)
    (fun _ => true)
    (fun e =>
       if is_ValueError e
       then ret (detail table_config "error" (Response.StrOf e))
       else ret (detail table_config "error" (Response.UnexpectedError e))).

(** The loop over [prune_request.tables]; [results] is the list the loop
    appends to. *)
Fixpoint process_tables (tables : list Api.ApiTableConfig)
    (results : list Response.PruneResponseDetail)
  : M (list Response.PruneResponseDetail) :=
  match tables with
  | [] => ret results
  | table_config :: tables' =>
      d <- process_table table_config ;;
      process_tables tables' (results ++ [d])
  end.

(** [isinstance(e, psycopg.OperationalError)] *)
Definition is_OperationalError (e : exn) : bool :=
  match e with
  | OperationalError _ => true
  | _ => false
  end.

(** Lines 69-83: the handler catches [psycopg.OperationalError] only; what
    else [psycopg.connect] raises leaves the function as it is. *)
Definition get_postgres_connection : M unit :=
  try_except (connect env) is_OperationalError
    (fun e => raise (HTTPException 503 e)).

(** Lines 85-98: [health_check].  The entry [database_accessible] is set
    after the connection was opened and closed; both handlers leave it as
    it was. *)
Definition health_check : M Health.HealthResponse :=
  let response := {| Health.status := "healthy";
                     Health.database_accessible := false |} in
  try_except
    (get_postgres_connection ;;
     close ;;
     ret {| Health.status := Health.status response;
            Health.database_accessible := true |})
    (fun _ => true)
    (fun _ => ret response).

(** The outer handlers of [prune_tables]: an [HTTPException] is raised
    again, anything else becomes a 500. *)
Definition reraise_as_http {A} (m : M A) : M A :=
  try_except m (fun _ => true)
    (fun e => if is_HTTPException e then raise e
              else raise (HTTPException 500 e)).

Definition prune_tables (prune_request : list Api.ApiTableConfig)
  : M (list Response.PruneResponseDetail) :=
  reraise_as_http get_postgres_connection ;;
  (* db_conn is set from here on: the finally clause closes it *)
  try_finally (reraise_as_http (process_tables prune_request [])) (close).


End Endpoint.
End Server.

(* ------------------------------------------------------------------ *)
(** * Concrete environments, used to run the code on explicit inputs *)
(* ------------------------------------------------------------------ *)

Definition string_in (x : string) (l : list string) : bool :=
  existsb (String.eqb x) l.

(** A session whose answers do not depend on what was done before: the
    tables of [existing] exist (in every schema asked for), every parent has
    the children [children], dropping a table of [locked] fails, and both
    clocks stand still. *)
Definition static_env (existing children locked : list string)
    (utc local : Z) : environment :=
  {| connect_reply := fun _ => Ok tt;
     table_exists_reply := fun _ t _ => Ok (Some (string_in t existing));
     partitions_reply := fun _ _ _ => Ok children;
     drop_reply := fun _ _ n =>
       if string_in n locked then Raise (DbError "lock timeout") else Ok tt;
     delete_reply := fun _ _ _ => Ok tt;
     commit_reply := fun _ => Ok tt;
     now_utc := fun _ => utc;
     now_local := fun _ => local |}.

(** 2024-01-01T00:00:00 UTC, in microseconds. *)
Definition NEW_YEAR_2024 : Z := to_us (mk_datetime 2024 1 1 0 0 0 0).

Definition time_policy (seconds : Z) : DataRetentionPolicy :=
  {| timeretention := Some {| dt_target_column := "mtime";
                              retention_seconds := seconds |};
     conditions := None |}.

Definition a_condition : DataRetentionPolicyConditions :=
  {| column := "status"; operator := "="; value := "old" |}.

Definition table_with (name : string) (p : DataRetentionPolicy)
  : PostgresTableModel :=
  {| table_name := name; schema := "public"; retention_policy := Some p |}.

Definition api_time_policy (seconds : Z) : Server.Api.ApiDataRetentionPolicy :=
  {| Server.Api.timeretention :=
       Some {| Server.Api.dt_target_column := "mtime";
               Server.Api.retention_seconds := seconds |};
     Server.Api.conditions := None |}.

Definition api_table (name : string) (p : Server.Api.ApiDataRetentionPolicy)
  : Server.Api.ApiTableConfig :=
  {| Server.Api.table_name := name;
     Server.Api.schema_name := "public";
     Server.Api.retention_policy := p |}.

(* ------------------------------------------------------------------ *)
(** * Vocabulary of the properties *)
(* ------------------------------------------------------------------ *)

Definition timeretention_nonempty (P : DataRetentionPolicy) : Prop :=
  exists tr, timeretention P = Some tr.

Definition conditions_nonempty (P : DataRetentionPolicy) : Prop :=
  exists c cs, conditions P = Some (c :: cs).

Definition exactly_one_variant (P : DataRetentionPolicy) : Prop :=
  (timeretention_nonempty P /\ ~ conditions_nonempty P)
  \/ (~ timeretention_nonempty P /\ conditions_nonempty P).

Definition neither_variant (P : DataRetentionPolicy) : Prop :=
  ~ timeretention_nonempty P /\ ~ conditions_nonempty P.

Definition both_variants (P : DataRetentionPolicy) : Prop :=
  timeretention_nonempty P /\ conditions_nonempty P.

Definition malformed (P : DataRetentionPolicy) : Prop :=
  neither_variant P \/ both_variants P.





(** The catalog says the table is not there: the row holds false, or
    there is no row. *)
Definition reported_absent (r : result (option bool)) : Prop :=
  r = Ok (Some false) \/ r = Ok None.

(** The statements sent to the database session, in order. *)
Definition is_statement (e : event) : bool :=
  match e with
  | SelectTableExists _ _ _ | SelectPartitions _ _ _
  | DropTableIfExists _ _ _ | DeleteWhereCondition _ _ _ | Commit _ => true
  | _ => false
  end.

Definition statements (h : history) : list event := filter is_statement h.

(** The tables a history sent a [DROP TABLE IF EXISTS] for. *)
Fixpoint drops (h : history) : list (string * string) :=
  match h with
  | [] => []
  | DropTableIfExists s n _ :: h' => (s, n) :: drops h'
  | _ :: h' => drops h'
  end.

(** The partition a printed line reports on, for the lines that close the
    processing of a partition. *)
Definition closes_partition (e : event) : option string :=
  match e with
  | Printed (SkipFormat n) | Printed (SkipParse n _) | Printed (Dropped n)
  | Printed (DropError n _) | Printed (NotDropped n) => Some n
  | _ => None
  end.

Fixpoint partitions_closed (h : history) : list string :=
  match h with
  | [] => []
  | e :: h' =>
      match closes_partition e with
      | Some n => n :: partitions_closed h'
      | None => partitions_closed h'
      end
  end.

Definition both_policy : DataRetentionPolicy :=
  {| timeretention := Some {| dt_target_column := "mtime";
                              retention_seconds := 15 |};
     conditions := Some [a_condition] |}.

Definition api_both_policy : Server.Api.ApiDataRetentionPolicy :=
  {| Server.Api.timeretention :=
       Some {| Server.Api.dt_target_column := "mtime";
               Server.Api.retention_seconds := 15 |};
     Server.Api.conditions :=
       Some [ {| Server.Api.column := "status"; Server.Api.operator := "=";
                 Server.Api.value := "old" |} ] |}.

(** The database of the failing runs: no table exists, no partitions. *)
Definition empty_database : environment :=
  static_env [] [] [] NEW_YEAR_2024 NEW_YEAR_2024.

(** A database that holds the table [events], without partitions. *)
Definition events_database : environment :=
  static_env ["events"%string] [] [] NEW_YEAR_2024 NEW_YEAR_2024.

(** The one statement [validate] sends, with its answer. *)
Definition existence_query (env : environment) (self : PostgresTableModel)
    (h : history) : event :=
  SelectTableExists (table_name self) (schema self)
    (table_exists_reply env h (table_name self) (schema self)).

(** Which table a request element, and an outcome, is about. *)
Definition key_of_config (tc : Server.Api.ApiTableConfig) : string * string :=
  (Server.Api.table_name tc, Server.Api.schema_name tc).

Definition key_of_detail (d : Server.Response.PruneResponseDetail)
  : string * string :=
  (Server.Response.table_name d, Server.Response.schema_name d).

(** [each_in_turn re env tables h results h']: starting from history [h],
    every table of [tables] was put through [process_table], each from the
    history its predecessor left, giving [results] and ending in [h']. *)
Inductive each_in_turn (re_match : string -> string -> result bool)
    (env : environment)
  : list Server.Api.ApiTableConfig -> history ->
    list Server.Response.PruneResponseDetail -> history -> Prop :=
| turn_nil (h : history) : each_in_turn re_match env [] h [] h
| turn_cons tc tcs h d h1 ds h2 :
    Server.process_table re_match env tc h = (Ok d, h1) ->
    each_in_turn re_match env tcs h1 ds h2 ->
    each_in_turn re_match env (tc :: tcs) h (d :: ds) h2.

(** The request of the batch-isolation scenario: [events] exists, [nope]
    does not. *)
Definition two_table_request : list Server.Api.ApiTableConfig :=
  [api_table "events" (api_time_policy 15);
   api_table "nope" (api_time_policy 15)].

(** The DROP statements among the events [evs] that follow the history
    [h], each with the history it was sent in. *)
Fixpoint drops_at (h : history) (evs : list event)
  : list (history * (string * string)) :=
  match evs with
  | [] => []
  | e :: evs' =>
      match e with
      | DropTableIfExists s n _ => [(h, (s, n))]
      | _ => []
      end ++ drops_at (h ++ [e]) evs'
  end.

(** [dropped_when_due re_match env self seconds before name]: the history
    [before], in which the DROP of [name] is sent, ends with a reading of
    the UTC clock -- the environment's answer at that point of the run --
    and the line that announces the DROP; [name] passes the filter of
    [self], decodes to a timestamp, and that timestamp is strictly before
    this very reading minus [seconds]. *)
Definition dropped_when_due (re_match : string -> string -> result bool)
    (env : environment) (self : PostgresTableModel) (seconds : Z)
    (before : history) (name : string) : Prop :=
  exists h0 dt,
    before = h0 ++ [NowUtc (now_utc env h0);
                    Printed (Attempting name (to_us dt)
                               (now_utc env h0 - seconds * 1000000))]
    /\ re_match (partition_pattern (table_name self)) name = Ok true
    /\ Server.PostgresTableModel.partition_datetime name = Ok dt
    /\ (to_us dt < now_utc env h0 - seconds * 1000000)%Z.

(** The partition is one the loop passes over: the name filter rejects
    it, or its name does not decode. *)
Definition unrecognised (re_match : string -> string -> result bool)
    (self : PostgresTableModel) (name : string) : Prop :=
  re_match (partition_pattern (table_name self)) name = Ok false
  \/ (re_match (partition_pattern (table_name self)) name = Ok true
      /\ exists e, Server.PostgresTableModel.partition_datetime name = Raise e).

Definition skip_note (re_match : string -> string -> result bool)
    (self : PostgresTableModel) (name : string) : event :=
  match re_match (partition_pattern (table_name self)) name,
        Server.PostgresTableModel.partition_datetime name with
  | Ok true, Raise e => Printed (SkipParse name e)
  | _, _ => Printed (SkipFormat name)
  end.

(** The script's own table, [public.test_table1] with fifteen seconds of
    retention. *)
Definition test_table1 : PostgresTableModel :=
  table_with "test_table1" (time_policy 15).

(** [test_table1] exists and has one partition, dated far in the future;
    it is 2024-01-01T00:00:00 UTC on a host whose zone is UTC. *)
Definition future_partition_database : environment :=
  static_env ["test_table1"%string] ["test_table1_p99990101_000000"%string] []
    NEW_YEAR_2024 NEW_YEAR_2024.

(** [test_table1] exists and has one partition, stamped five seconds before
    the clock reading; the host's zone is UTC. *)
Definition fresh_partition_database : environment :=
  static_env ["test_table1"%string] ["test_table1_p20231231_235955"%string] []
    NEW_YEAR_2024 NEW_YEAR_2024.

(** [test_table1] has a partition whose digits are no date (month 13),
    followed by one from 2020. *)
Definition bad_date_database : environment :=
  static_env ["test_table1"%string]
    ["test_table1_p20231301_000000"; "test_table1_p20200101_000000"]%string []
    NEW_YEAR_2024 NEW_YEAR_2024.

(** [test_table1] has two partitions from 2020; dropping the first one
    fails. *)
Definition locked_partition_database : environment :=
  static_env ["test_table1"%string]
    ["test_table1_p20200101_000000"; "test_table1_p20200102_000000"]%string
    ["test_table1_p20200101_000000"%string]
    NEW_YEAR_2024 NEW_YEAR_2024.

(** The naming convention, read literally:
    [{parent}_p{8 digits}_{6 digits}]. *)
Definition digits (n : nat) (s : string) : Prop :=
  String.length s = n /\ string_forallb is_digit s = true.

Definition is_convention_name (parent name : string) : Prop :=
  exists date time,
    digits 8 date /\ digits 6 time
    /\ name = (parent ++ "_p" ++ date ++ "_" ++ time)%string.

Definition LF_string : string := String LF EmptyString.

(** The nodes of a literal text. *)
Fixpoint literal_nodes (w : string) : list node :=
  match w with
  | EmptyString => []
  | String c w' => NAtom (ALit c) 1 :: literal_nodes w'
  end.

(** The nodes of the constant tail [_p\d{8}_\d{6}$]. *)
Definition tail_nodes : list node :=
  [NAtom (ALit "_") 1; NAtom (ALit "p") 1; NAtom ADigit 8;
   NAtom (ALit "_") 1; NAtom ADigit 6; NEol].

(** The nodes read so far, the pending item included. *)
Definition flush (st : pstate) (acc : list node) : list node :=
  match st with
  | PAtom a => NAtom a 1 :: acc
  | _ => acc
  end.

Definition between_items (st : pstate) : Prop :=
  st = PStart \/ exists a, st = PAtom a.

(** The date and time that eight and six digits stand for:
    YYYYMMDD and HHMMSS. *)
Definition date_fields (date time : string) : datetime :=
  mk_datetime (int_of_group 0 (slice 0 4 date))
              (int_of_group 0 (slice 4 6 date))
              (int_of_group 0 (slice 6 8 date))
              (int_of_group 0 (slice 0 2 time))
              (int_of_group 0 (slice 2 4 time))
              (int_of_group 0 (slice 4 6 time))
              0.

(** The numeric value of a digit. *)
Definition dv (c : ascii) : Z := Z.of_nat (digit_value c).

(** The two digits [a b] are a value the directive admits. *)
Definition two_digit_ok (d : directive) (a b : ascii) : bool :=
  let v := (10 * dv a + dv b)%Z in
  match d with
  | Dm => (1 <=? v)%Z && (v <=? 12)%Z
  | Dd => (1 <=? v)%Z && (v <=? 31)%Z
  | DH => (v <=? 23)%Z
  | DM => (v <=? 59)%Z
  | DS => (v <=? 59)%Z
  | _ => false
  end.

(** [s] holds no occurrence of the two characters [c1 c2] in a row. *)
Fixpoint no_sep2 (c1 c2 : ascii) (s : string) : bool :=
  match s with
  | EmptyString => true
  | String c s' =>
      match s' with
      | String d _ =>
          negb (Ascii.eqb c c1 && Ascii.eqb d c2) && no_sep2 c1 c2 s'
      | EmptyString => true
      end
  end.

(** [events] exists and has the one child [events_pARCHIVE]. *)
Definition archive_database : environment :=
  static_env ["events"%string] ["events_pARCHIVE"%string] []
    NEW_YEAR_2024 NEW_YEAR_2024.

(** A [DROP TABLE IF EXISTS] for some table of schema [s]. *)
Definition is_drop_in (s : string) (e : event) : Prop :=
  exists n r, e = DropTableIfExists s n r.

(** The session cannot be opened: the server refuses the connection. *)
Definition unreachable_database : environment :=
  {| connect_reply := fun _ => Raise (OperationalError "connection refused");
     table_exists_reply :=
       fun _ _ _ => Raise (OperationalError "connection refused");
     partitions_reply :=
       fun _ _ _ => Raise (OperationalError "connection refused");
     drop_reply := fun _ _ _ => Raise (OperationalError "connection refused");
     delete_reply := fun _ _ _ => Raise (OperationalError "connection refused");
     commit_reply := fun _ => Raise (OperationalError "connection refused");
     now_utc := fun _ => NEW_YEAR_2024;
     now_local := fun _ => NEW_YEAR_2024 |}.

(** The session cannot be opened for another reason: [psycopg.connect]
    raises an error of [psycopg] that is no [OperationalError]. *)
Definition misconfigured_database : environment :=
  {| connect_reply := fun _ => Raise (DbError "invalid connection option");
     table_exists_reply := fun _ _ _ => Ok (Some true);
     partitions_reply := fun _ _ _ => Ok [];
     drop_reply := fun _ _ _ => Ok tt;
     delete_reply := fun _ _ _ => Ok tt;
     commit_reply := fun _ => Ok tt;
     now_utc := fun _ => NEW_YEAR_2024;
     now_local := fun _ => NEW_YEAR_2024 |}.

Definition api_conditions_policy : Server.Api.ApiDataRetentionPolicy :=
  {| Server.Api.timeretention := None;
     Server.Api.conditions :=
       Some [ {| Server.Api.column := "status"; Server.Api.operator := "=";
                 Server.Api.value := "old" |} ] |}.

(** The domain object holds the fields of the request's object, each
    under its own name. *)
Definition same_condition (a : Server.Api.ApiDataRetentionPolicyConditions)
    (d : DataRetentionPolicyConditions) : Prop :=
  column d = Server.Api.column a
  /\ operator d = Server.Api.operator a
  /\ value d = Server.Api.value a.

Definition same_time_retention
    (a : Server.Api.ApiDataRetentionPolicyTimeRetention)
    (d : DataRetentionPolicyTimeRetention) : Prop :=
  dt_target_column d = Server.Api.dt_target_column a
  /\ retention_seconds d = Server.Api.retention_seconds a.

(** [d] is what lines 113-118 make of the request's [timeretention]. *)
Definition converted_time_retention
    (a : option Server.Api.ApiDataRetentionPolicyTimeRetention)
    (d : option DataRetentionPolicyTimeRetention) : Prop :=
  match a with
  | Some a' => exists d', d = Some d' /\ same_time_retention a' d'
  | None => d = None
  end.

(** [d] is what lines 120-128 make of the request's [conditions]: a list
    that is not empty is converted element by element, in order; an empty
    list and [None] both give [None]. *)
Definition converted_conditions
    (a : option (list Server.Api.ApiDataRetentionPolicyConditions))
    (d : option (list DataRetentionPolicyConditions)) : Prop :=
  match a with
  | Some (c :: cs) => exists ds, d = Some ds /\ Forall2 same_condition (c :: cs) ds
  | _ => d = None
  end.

(** [events] exists; its children are [events_pARCHIVE] and two dated
    partitions. *)
Definition mixed_database : environment :=
  static_env ["events"%string]
    ["events_pARCHIVE"; "events_p20200101_000000";
     "events_p20200102_000000"]%string []
    NEW_YEAR_2024 NEW_YEAR_2024.

(** The 8-bit matcher of [Py] inside the matcher on code points. *)
Definition up_atom (a : atom) : Unicode.atom :=
  match a with
  | ALit c => Unicode.ALit (Unicode.chr c)
  | AAny => Unicode.AAny
  | ADigit => Unicode.ADigit
  end.

Definition up_node (n : node) : Unicode.node :=
  match n with
  | NAtom a k => Unicode.NAtom (up_atom a) k
  | NBol => Unicode.NBol
  | NEol => Unicode.NEol
  end.

Definition up_state (st : pstate) : Unicode.pstate :=
  match st with
  | PStart => Unicode.PStart
  | PAtom a => Unicode.PAtom (up_atom a)
  | PEsc => Unicode.PEsc
  | PCount a n => Unicode.PCount (up_atom a) n
  end.

(** In the 8-bit range the decimal digits are [0]..[9]. *)
Definition latin1_digits (isdecimal : N -> bool) : Prop :=
  forall c : ascii, isdecimal (Unicode.chr c) = is_digit c.

(* ================================================================== *)
(** * Properties *)
(* ================================================================== *)

(** ** Policy shape *)

Lemma timeretention_set_iff (P : DataRetentionPolicy) :
  timeretention_set P = true <-> timeretention_nonempty P.
Proof.
  unfold timeretention_set, timeretention_nonempty.
  destruct (timeretention P) as [tr|]; split; intro H.
  - now exists tr.
  - reflexivity.
  - discriminate.
  - destruct H as [tr H]. discriminate.
Qed.

Lemma conditions_set_iff (P : DataRetentionPolicy) :
  conditions_set P = true <-> conditions_nonempty P.
Proof.
  unfold conditions_set, conditions_nonempty.
  destruct (conditions P) as [[|c cs]|]; split; intro H;
    try discriminate; try reflexivity.
  - destruct H as (c & cs & H). discriminate.
  - now exists c, cs.
  - destruct H as (c & cs & H). discriminate.
Qed.

Lemma server_policy_validate_cases (P : DataRetentionPolicy) :
  (timeretention_set P = false /\ conditions_set P = false /\
   Server.DataRetentionPolicy.validate P =
     Raise (ValueError "Either timeretention or conditions must be provided"))
  \/ (timeretention_set P = true /\ conditions_set P = true /\
      Server.DataRetentionPolicy.validate P =
        Raise (ValueError "Only one of timeretention or conditions can be provided"))
  \/ (xorb (timeretention_set P) (conditions_set P) = true /\
      Server.DataRetentionPolicy.validate P = Ok true).
Proof.
  unfold Server.DataRetentionPolicy.validate.
  destruct (timeretention_set P), (conditions_set P); cbn; auto.
Qed.

(** C5.  Policy validation succeeds exactly for the policies with one of
    the two variants non-empty; with neither it raises the "either ... must
    be provided" error, with both the "only one ... can be provided" error.
    The two generations of [models.py] agree. *)
Theorem policy_validate_exactly_one (P : DataRetentionPolicy) :
  (Server.DataRetentionPolicy.validate P = Ok true <-> exactly_one_variant P)
  /\ (Legacy.DataRetentionPolicy.validate P = Ok true <-> exactly_one_variant P)
  /\ (neither_variant P <->
      Server.DataRetentionPolicy.validate P =
        Raise (ValueError "Either timeretention or conditions must be provided"))
  /\ (both_variants P <->
      Server.DataRetentionPolicy.validate P =
        Raise (ValueError "Only one of timeretention or conditions can be provided"))
  /\ Legacy.DataRetentionPolicy.validate P
     = Server.DataRetentionPolicy.validate P.
Proof.
  change (Legacy.DataRetentionPolicy.validate P)
    with (Server.DataRetentionPolicy.validate P).
  unfold exactly_one_variant, neither_variant, both_variants.
  rewrite <- (timeretention_set_iff P), <- (conditions_set_iff P).
  destruct (server_policy_validate_cases P)
    as [(Ht & Hc & Hv) | [(Ht & Hc & Hv) | (Hx & Hv)]];
    rewrite Hv; try rewrite Ht; try rewrite Hc.
  - repeat split; try discriminate; try tauto; intuition discriminate.
  - repeat split; try discriminate; try tauto; intuition discriminate.
  - destruct (timeretention_set P), (conditions_set P); try discriminate;
      repeat split; try discriminate; try tauto; intuition discriminate.
Qed.

(** ** Table validation *)

Ltac run_M :=
  unfold bind, ret, raise, lift, print, try_except, try_finally,
    select_table_exists, select_partitions, drop_table_if_exists,
    delete_where_condition, commit, datetime_now_utc, datetime_now,
    connect, close in *.

Section PerTable.
Variable re_match : string -> string -> result bool.
Variable env : environment.

Lemma server_validate_run (self : PostgresTableModel) (h : history) :
  Server.PostgresTableModel.validate env self h =
  (match table_exists_reply env h (table_name self) (schema self) with
   | Raise e => Raise e
   | Ok row =>
       let table_exists := match row with Some b => b | None => false end in
       match retention_policy self with
       | Some p =>
           match Server.DataRetentionPolicy.validate p with
           | Ok v => Ok (table_exists && v)
           | Raise e => Raise e
           end
       | None => Ok (table_exists && true)
       end
   end, h ++ [existence_query env self h]).
Proof.
  unfold Server.PostgresTableModel.validate, existence_query. run_M.
  destruct (table_exists_reply env h (table_name self) (schema self))
    as [row|e]; [|reflexivity].
  destruct (retention_policy self) as [p|]; [|reflexivity].
  destruct (Server.DataRetentionPolicy.validate p); reflexivity.
Qed.

Lemma legacy_validate_run (self : PostgresTableModel) (h : history) :
  Legacy.PostgresTableModel.validate env self h =
  (match table_exists_reply env h (table_name self) (schema self) with
   | Raise e => Raise e
   | Ok None => Raise TypeError
   | Ok (Some _) =>
       match retention_policy self with
       | Some p =>
           match Legacy.DataRetentionPolicy.validate p with
           | Ok v => Ok v
           | Raise e => Raise e
           end
       | None => Ok true
       end
   end, h ++ [existence_query env self h]).
Proof.
  unfold Legacy.PostgresTableModel.validate, existence_query. run_M.
  destruct (table_exists_reply env h (table_name self) (schema self))
    as [[b|]|e]; try reflexivity.
  destruct (retention_policy self) as [p|]; [|reflexivity].
  destruct (Legacy.DataRetentionPolicy.validate p); reflexivity.
Qed.

Lemma exactly_one_validates (P : DataRetentionPolicy) :
  exactly_one_variant P -> Server.DataRetentionPolicy.validate P = Ok true.
Proof.
  unfold exactly_one_variant.
  rewrite <- (timeretention_set_iff P), <- (conditions_set_iff P).
  intros H.
  destruct (server_policy_validate_cases P)
    as [(Ht & Hc & _) | [(Ht & Hc & _) | (_ & Hv)]];
    [ | | exact Hv]; rewrite Ht, Hc in H; intuition discriminate.
Qed.

Lemma malformed_validate_raises (P : DataRetentionPolicy) :
  malformed P ->
  exists msg, Server.DataRetentionPolicy.validate P = Raise (ValueError msg).
Proof.
  unfold malformed, neither_variant, both_variants.
  rewrite <- (timeretention_set_iff P), <- (conditions_set_iff P).
  intros H.
  destruct (server_policy_validate_cases P)
    as [(_ & _ & Hv) | [(_ & _ & Hv) | (Hx & _)]];
    try (eexists; exact Hv).
  destruct (timeretention_set P), (conditions_set P);
    try discriminate Hx; intuition discriminate.
Qed.

(** The order inside [validate]: the policy is checked after the
    table-existence query.  Called on a table model whose policy is
    malformed (neither or both variants set), [validate] raises once that
    one read-only query has been sent, and the pass for the table sends
    nothing else.  Neither program builds such a table model: the
    script's only policy is well formed, and the endpoint refuses the
    request before [prune_tables] is entered. *)
Lemma validate_checks_policy_after_existence_query
    (self : PostgresTableModel) (P : DataRetentionPolicy) (h : history) :
  retention_policy self = Some P ->
  malformed P ->
  (exists e, Server.PostgresTableModel.validate env self h
             = (Raise e, h ++ [existence_query env self h]))
  /\ (exists e, Legacy.PostgresTableModel.validate env self h
                = (Raise e, h ++ [existence_query env self h]))
  /\ (exists e, Legacy.process_table re_match env self h
                = (Raise e, h ++ [existence_query env self h]))
  /\ (forall tc, Server.table_model_of tc = self ->
        exists d, Server.process_table re_match env tc h
                  = (Ok d, h ++ [existence_query env self h])
                  /\ Server.Response.status d = "error"%string).
Proof.
  intros HP Hbad.
  destruct (malformed_validate_raises P Hbad) as [msg Hmsg].
  assert (Hs : exists e, Server.PostgresTableModel.validate env self h
                         = (Raise e, h ++ [existence_query env self h])).
  { rewrite server_validate_run, HP, Hmsg.
    destruct (table_exists_reply env h (table_name self) (schema self));
      eexists; reflexivity. }
  assert (Hl : exists e, Legacy.PostgresTableModel.validate env self h
                         = (Raise e, h ++ [existence_query env self h])).
  { rewrite legacy_validate_run, HP.
    change (Legacy.DataRetentionPolicy.validate P)
      with (Server.DataRetentionPolicy.validate P).
    rewrite Hmsg.
    destruct (table_exists_reply env h (table_name self) (schema self))
      as [[b|]|e]; eexists; reflexivity. }
  repeat split; auto.
  - destruct Hl as [e He]. exists e.
    unfold Legacy.process_table, bind. now rewrite He.
  - intros tc Htc. destruct Hs as [e He].
    unfold Server.process_table, Server.table_pass, try_except, bind.
    rewrite Htc, He.
    destruct (is_ValueError e); eexists; split; reflexivity.
Qed.

(** X2.  Where the catalog reports the table absent, [validate] of the
    server generation does not return true: it returns false for a well-formed
    policy (or none) and raises the policy's [ValueError] otherwise; the
    endpoint's outcome for the table is an error, and the only statement
    sent for it is the existence query. *)
Lemma server_absent_table_not_pruned (tc : Server.Api.ApiTableConfig)
    (h : history) :
  let self := Server.table_model_of tc in
  reported_absent (table_exists_reply env h (table_name self) (schema self)) ->
  (fst (Server.PostgresTableModel.validate env self h) = Ok false
   \/ exists msg, fst (Server.PostgresTableModel.validate env self h)
                  = Raise (ValueError msg))
  /\ exists d, Server.process_table re_match env tc h
               = (Ok d, h ++ [existence_query env self h])
               /\ Server.Response.status d = "error"%string
               /\ Server.Response.table_name d = Server.Api.table_name tc
               /\ Server.Response.schema_name d = Server.Api.schema_name tc.
Proof.
  intros self Habs.
  unfold Server.process_table, Server.table_pass, try_except, bind.
  fold self. rewrite server_validate_run.
  change (retention_policy self)
    with (Some {| timeretention := timeretention
                     (match retention_policy self with Some p => p
                      | None => time_policy 0 end);
                  conditions := conditions
                     (match retention_policy self with Some p => p
                      | None => time_policy 0 end) |}).
  cbv zeta.
  set (p := {| timeretention := _; conditions := _ |}).
  destruct (server_policy_validate_cases p)
    as [(_ & _ & Hv) | [(_ & _ & Hv) | (_ & Hv)]]; rewrite Hv;
    destruct Habs as [Hr|Hr]; rewrite Hr; cbn;
    (split; [ (left; reflexivity) || (right; eexists; reflexivity)
            | eexists; repeat split ]).
Qed.

(** Where the catalog reports the table absent and the policy is well
    formed, the absence is the value false, not an exception. *)
Lemma server_absent_is_false (self : PostgresTableModel) (h : history) :
  reported_absent (table_exists_reply env h (table_name self) (schema self)) ->
  (forall P, retention_policy self = Some P -> exactly_one_variant P) ->
  Server.PostgresTableModel.validate env self h
  = (Ok false, h ++ [existence_query env self h]).
Proof.
  intros Habs Hok. rewrite server_validate_run.
  destruct (retention_policy self) as [P|] eqn:HP.
  - rewrite (exactly_one_validates P (Hok P eq_refl)).
    destruct Habs as [Hr|Hr]; rewrite Hr; reflexivity.
  - destruct Habs as [Hr|Hr]; rewrite Hr; reflexivity.
Qed.

(** X9.  The script's generation forgets the answer of the catalog: with
    a well-formed policy, [validate] is true whatever boolean the row
    holds. *)
Lemma legacy_validate_ignores_catalog (self : PostgresTableModel)
    (P : DataRetentionPolicy) (h : history) (b : bool) :
  retention_policy self = Some P ->
  exactly_one_variant P ->
  table_exists_reply env h (table_name self) (schema self) = Ok (Some b) ->
  Legacy.PostgresTableModel.validate env self h
  = (Ok true, h ++ [existence_query env self h]).
Proof.
  intros HP Hok Hr. rewrite legacy_validate_run, Hr, HP.
  change (Legacy.DataRetentionPolicy.validate P)
    with (Server.DataRetentionPolicy.validate P).
  now rewrite (exactly_one_validates P Hok).
Qed.

End PerTable.

(** ** The coordinator *)

Section Coordinator.
Variable re_match : string -> string -> result bool.
Variable env : environment.

Lemma table_pass_key (tc : Server.Api.ApiTableConfig) (h h' : history)
    (d : Server.Response.PruneResponseDetail) :
  Server.table_pass re_match env tc h = (Ok d, h') ->
  key_of_detail d = key_of_config tc.
Proof.
  unfold Server.table_pass, bind.
  destruct (Server.PostgresTableModel.validate env
              (Server.table_model_of tc) h) as [[v|e] h1];
    [|discriminate].
  destruct v; cbv [negb].
  - destruct (retention_policy (Server.table_model_of tc)).
    + destruct (Server.PostgresTableModel.prune re_match env
                  (Server.table_model_of tc) h1)
        as [[u|e] h2]; [|discriminate].
      unfold ret. intros H. inversion H. reflexivity.
    + unfold ret. intros H. inversion H. reflexivity.
  - unfold ret. intros H. inversion H. reflexivity.
Qed.

(** Whatever the inner pass does, [process_table] returns an outcome for
    its table; an exception of the pass becomes an error outcome. *)
Lemma process_table_returns (tc : Server.Api.ApiTableConfig) (h : history) :
  exists d h',
    Server.process_table re_match env tc h = (Ok d, h')
    /\ key_of_detail d = key_of_config tc
    /\ h' = snd (Server.table_pass re_match env tc h)
    /\ (forall e, fst (Server.table_pass re_match env tc h) = Raise e ->
        Server.Response.status d = "error"%string).
Proof.
  unfold Server.process_table, try_except.
  destruct (Server.table_pass re_match env tc h) as [[d|e] h'] eqn:E.
  - exists d, h'. repeat split.
    + exact (table_pass_key tc h h' d E).
    + cbn. discriminate.
  - destruct (is_ValueError e); eexists; eexists; repeat split.
Qed.

Lemma process_tables_run (tables : list Server.Api.ApiTableConfig) :
  forall (acc : list Server.Response.PruneResponseDetail) (h : history),
  exists ds h',
    Server.process_tables re_match env tables acc h = (Ok (acc ++ ds), h')
    /\ map key_of_detail ds = map key_of_config tables
    /\ each_in_turn re_match env tables h ds h'.
Proof.
  induction tables as [|tc tcs IH]; intros acc h.
  - exists [], h. cbn. rewrite app_nil_r. repeat split. constructor.
  - destruct (process_table_returns tc h) as (d & h1 & Hd & Hk & _ & _).
    destruct (IH (acc ++ [d]) h1) as (ds & h2 & Hds & Hks & Hturn).
    exists (d :: ds), h2. cbn. unfold bind. rewrite Hd, Hds.
    rewrite <- app_assoc. cbn. repeat split.
    + now rewrite Hk, Hks.
    + econstructor; eassumption.
Qed.

(** C9.  Once the session is open, [prune_tables] returns one outcome per
    element of the request, in the order of the request, each for the table
    of its element; every table is processed from the history its
    predecessor left, whatever happened there; and an exception raised
    while a table is processed becomes that table's error outcome. *)
Theorem prune_tables_one_outcome_per_table
    (tables : list Server.Api.ApiTableConfig) (h : history) :
  connect_reply env h = Ok tt ->
  exists results h',
    Server.prune_tables re_match env tables h = (Ok results, h' ++ [Close])
    /\ length results = length tables
    /\ map key_of_detail results = map key_of_config tables
    /\ each_in_turn re_match env tables (h ++ [Connect (Ok tt)]) results h'
    /\ (forall tc h0 e h1,
          Server.table_pass re_match env tc h0 = (Raise e, h1) ->
          exists d, Server.process_table re_match env tc h0 = (Ok d, h1)
                    /\ Server.Response.status d = "error"%string
                    /\ key_of_detail d = key_of_config tc).
Proof.
  intros Hc.
  destruct (process_tables_run tables [] (h ++ [Connect (Ok tt)]))
    as (ds & h' & Hrun & Hk & Hturn).
  exists ds, h'. repeat split.
  - unfold Server.prune_tables, Server.reraise_as_http,
      Server.get_postgres_connection, bind, try_except, try_finally,
      connect, close.
    rewrite Hc, Hrun. reflexivity.
  - rewrite <- (length_map key_of_detail), Hk. apply length_map.
  - exact Hk.
  - exact Hturn.
  - intros tc h0 e h1 Hp.
    destruct (process_table_returns tc h0) as (d & h2 & Hd & Hkd & Hh & He).
    rewrite Hp in Hh, He. cbn in Hh. subst h2.
    exists d. repeat split; auto. now apply (He e).
Qed.

End Coordinator.

Lemma prune_tables_one_outcome_per_table_witness :
  exists results h',
    Server.prune_tables re_match_lib events_database two_table_request []
    = (Ok results, h' ++ [Close])
    /\ length results = length two_table_request
    /\ map key_of_detail results = map key_of_config two_table_request
    /\ each_in_turn re_match_lib events_database two_table_request
         ([] ++ [Connect (Ok tt)]) results h'
    /\ (forall tc h0 e h1,
          Server.table_pass re_match_lib events_database tc h0 = (Raise e, h1) ->
          exists d, Server.process_table re_match_lib events_database tc h0
                    = (Ok d, h1)
                    /\ Server.Response.status d = "error"%string
                    /\ key_of_detail d = key_of_config tc).
Proof.
  apply (prune_tables_one_outcome_per_table re_match_lib events_database
           two_table_request []).
  reflexivity.
Defined.

(** ** The loop over the partitions, server generation *)

Lemma drops_app (a b : history) : drops (a ++ b) = drops a ++ drops b.
Proof.
  induction a as [|e a IH]; [reflexivity|].
  destruct e; cbn; rewrite ?IH; reflexivity.
Qed.

Lemma drops_at_app (a b : list event) :
  forall h, drops_at h (a ++ b) = drops_at h a ++ drops_at (h ++ a) b.
Proof.
  induction a as [|e a IH]; intros h.
  - cbn. now rewrite app_nil_r.
  - cbn [app drops_at]. rewrite IH, <- !app_assoc. reflexivity.
Qed.

Lemma drops_at_drops (evs : list event) :
  forall h, map snd (drops_at h evs) = drops evs.
Proof.
  induction evs as [|e evs IH]; intros h; [reflexivity|].
  cbn [drops_at]. rewrite map_app, IH. destruct e; reflexivity.
Qed.

Lemma partitions_closed_app (a b : history) :
  partitions_closed (a ++ b) = partitions_closed a ++ partitions_closed b.
Proof.
  induction a as [|e a IH]; [reflexivity|].
  cbn. destruct (closes_partition e); rewrite IH; reflexivity.
Qed.

Lemma timedelta_seconds_value (s delta : Z) :
  timedelta_seconds s = Ok delta -> delta = (s * 1000000)%Z.
Proof.
  unfold timedelta_seconds.
  destruct (_ && _); intros H; inversion H; reflexivity.
Qed.

Lemma datetime_sub_value (t delta r : Z) :
  datetime_sub t delta = Ok r -> r = (t - delta)%Z.
Proof.
  unfold datetime_sub. cbv zeta.
  destruct (_ && _); intros H; inversion H; reflexivity.
Qed.

Lemma server_partition_datetime_raises (name : string) (e : exn) :
  Server.PostgresTableModel.partition_datetime name = Raise e ->
  is_IndexError_or_ValueError e = true.
Proof.
  unfold Server.PostgresTableModel.partition_datetime, index_from_end, index.
  destruct (nth_error (split2 "_" "p" name) 1) as [a|];
    [|intros H; inversion H; reflexivity].
  destruct (nth_error (split1 "_" a) 0) as [b|];
    [|intros H; inversion H; reflexivity].
  destruct (nth_error (rev (split1 "_" name)) 0) as [c|];
    [|intros H; inversion H; reflexivity].
  unfold strptime.
  destruct (match_format fmt_compact (b ++ c)) as [[caps [|x rest]]|];
    try (intros H; inversion H; reflexivity).
  destruct (valid_datetime _); intros H; inversion H; reflexivity.
Qed.

Section ServerLoop.
Variable re_match : string -> string -> result bool.
Variable env : environment.
Variable self : PostgresTableModel.
Variable seconds : Z.

Local Abbreviation step :=
  (Server.PostgresTableModel.drop_partition_if_old re_match env self seconds).

(** What one turn of the loop does, case by case. *)
Lemma server_step_run (name : string) (h : history) :
  step name h =
  match re_match (partition_pattern (table_name self)) name with
  | Raise e => (Raise e, h)
  | Ok false => (Ok tt, h ++ [Printed (SkipFormat name)])
  | Ok true =>
      match Server.PostgresTableModel.partition_datetime name with
      | Raise e => (Ok tt, h ++ [Printed (SkipParse name e)])
      | Ok dt =>
          match timedelta_seconds seconds with
          | Raise e => (Raise e, h)
          | Ok delta =>
              let now := now_utc env h in
              match datetime_sub now delta with
              | Raise e => (Raise e, h ++ [NowUtc now])
              | Ok cutoff =>
                  if (to_us dt <? cutoff)%Z then
                    let h2 := h ++ [NowUtc now;
                                    Printed (Attempting name (to_us dt) cutoff)] in
                    let r := drop_reply env h2 (schema self) name in
                    (Ok tt,
                     h2 ++ [DropTableIfExists (schema self) name r;
                            Printed (match r with
                                     | Ok _ => Dropped name
                                     | Raise e => DropError name e
                                     end)])
                  else (Ok tt, h ++ [NowUtc now; Printed (NotDropped name)])
              end
          end
      end
  end.
Proof.
  unfold Server.PostgresTableModel.drop_partition_if_old. run_M.
  destruct (re_match _ name) as [[|]|e]; cbn [negb]; try reflexivity.
  destruct (Server.PostgresTableModel.partition_datetime name) as [dt|e] eqn:E.
  - destruct (timedelta_seconds seconds) as [delta|e]; [|reflexivity].
    cbv zeta.
    destruct (datetime_sub (now_utc env h) delta) as [cutoff|e]; [|reflexivity].
    destruct (to_us dt <? cutoff)%Z.
    + rewrite <- !app_assoc. cbn [app].
      destruct (drop_reply env _ (schema self) name);
        rewrite <- ?app_assoc; reflexivity.
    + rewrite <- !app_assoc. reflexivity.
  - now rewrite (server_partition_datetime_raises name e E).
Qed.

Lemma for_each_cons {A} (body : A -> M unit) (x : A) (l : list A)
    (h : history) :
  for_each body (x :: l) h =
  match body x h with
  | (Ok _, h1) => for_each body l h1
  | (Raise e, h1) => (Raise e, h1)
  end.
Proof. reflexivity. Qed.

(** X3.  A partition with a decoded timestamp [t], when the cutoff can be
    computed (server generation): the cutoff is the clock's UTC reading minus the retention,
    the DROP is sent exactly when [t] is strictly before it, and a partition
    at the cutoff is kept. *)
Lemma server_drop_iff_before_cutoff (name : string) (h : history)
    (dt : datetime) (delta cutoff : Z) :
  re_match (partition_pattern (table_name self)) name = Ok true ->
  Server.PostgresTableModel.partition_datetime name = Ok dt ->
  timedelta_seconds seconds = Ok delta ->
  datetime_sub (now_utc env h) delta = Ok cutoff ->
  cutoff = (now_utc env h - seconds * 1000000)%Z
  /\ exists evs,
       step name h = (Ok tt, h ++ evs)
       /\ (drops evs = [(schema self, name)] <-> (to_us dt < cutoff)%Z)
       /\ (drops evs = [] <-> (cutoff <= to_us dt)%Z).
Proof.
  intros Hm Hd Ht Hc. split.
  - apply datetime_sub_value in Hc. apply timedelta_seconds_value in Ht.
    now subst.
  - rewrite server_step_run, Hm, Hd, Ht. cbv zeta. rewrite Hc.
    destruct (Z.ltb_spec (to_us dt) cutoff) as [Hlt|Hge].
    + eexists. rewrite <- app_assoc. split; [reflexivity|].
      cbn. split; split; intros; try reflexivity; try lia; try discriminate.
    + eexists. split; [reflexivity|].
      cbn. split; split; intros; try reflexivity; try lia; try discriminate.
Qed.

(** An unrecognised partition costs one printed line, and the loop goes
    on to the next partition. *)
Lemma server_step_skips (name : string) (h : history) :
  unrecognised re_match self name ->
  step name h = (Ok tt, h ++ [skip_note re_match self name]).
Proof.
  unfold unrecognised, skip_note. rewrite server_step_run.
  intros [Hm | (Hm & e & He)]; rewrite Hm; [reflexivity|].
  now rewrite He.
Qed.

Lemma server_loop_skips (names : list string) :
  Forall (unrecognised re_match self) names ->
  forall h,
    for_each step names h
    = (Ok tt, h ++ map (skip_note re_match self) names).
Proof.
  induction 1 as [|name names Hn _ IH]; intros h.
  - cbn. now rewrite app_nil_r.
  - rewrite for_each_cons, (server_step_skips name h Hn), IH.
    now rewrite <- app_assoc.
Qed.

(** X17.  An exception that leaves a turn of the server generation's
    loop comes from the pattern match or is the [OverflowError] of the date
    arithmetic; a name that does not decode and the failure of a DROP
    never raise out of the turn. *)
Lemma server_step_raises (name : string) (h : history) (e : exn) :
  fst (step name h) = Raise e ->
  re_match (partition_pattern (table_name self)) name = Raise e
  \/ e = OverflowError.
Proof.
  rewrite server_step_run.
  destruct (re_match _ name) as [[|]|e0]; cbn;
    [ | discriminate | intros H; inversion H; now left ].
  destruct (Server.PostgresTableModel.partition_datetime name);
    [|discriminate].
  unfold timedelta_seconds, datetime_sub.
  destruct (_ && _); cbv zeta; [|intros H; inversion H; now right].
  destruct (_ && _); [|intros H; inversion H; now right].
  destruct (_ <? _)%Z; discriminate.
Qed.

(** Every DROP a turn of the loop sends is for the partition of that turn,
    in the table's schema, and it is sent right after the clock was read,
    the partition's timestamp being before that reading minus the
    retention. *)
Lemma server_step_due (name : string) (h : history) :
  exists evs,
    snd (step name h) = h ++ evs
    /\ forall before s n, In (before, (s, n)) (drops_at h evs) ->
         s = schema self /\ n = name
         /\ dropped_when_due re_match env self seconds before n.
Proof.
  rewrite server_step_run.
  destruct (re_match _ name) as [[|]|e0] eqn:Hm;
    try (exists []; rewrite app_nil_r; split; [reflexivity|contradiction]);
    try (eexists; split; [reflexivity|contradiction]).
  destruct (Server.PostgresTableModel.partition_datetime name) as [dt|e] eqn:Hd;
    [|eexists; split; [reflexivity|contradiction]].
  destruct (timedelta_seconds seconds) as [delta|e] eqn:Ht;
    [|exists []; rewrite app_nil_r; split; [reflexivity|contradiction]].
  cbv zeta.
  destruct (datetime_sub (now_utc env h) delta) as [cutoff|e] eqn:Hc;
    [|eexists; split; [reflexivity|contradiction]].
  apply datetime_sub_value in Hc. apply timedelta_seconds_value in Ht.
  subst delta cutoff.
  destruct (Z.ltb_spec (to_us dt) (now_utc env h - seconds * 1000000))
    as [Hlt|Hge].
  - eexists. rewrite <- app_assoc. split; [reflexivity|].
    cbn. intros before s n [H|[]]. inversion H; subst.
    split; [reflexivity|]. split; [reflexivity|].
    exists h, dt. rewrite <- app_assoc. repeat split; assumption.
  - eexists. split; [reflexivity|contradiction].
Qed.

Lemma server_loop_due (names : list string) :
  forall h,
  exists evs,
    snd (for_each step names h) = h ++ evs
    /\ forall before s n, In (before, (s, n)) (drops_at h evs) ->
         s = schema self /\ In n names
         /\ dropped_when_due re_match env self seconds before n.
Proof.
  induction names as [|name names IH]; intros h.
  - exists []. cbn. rewrite app_nil_r. split; [reflexivity|contradiction].
  - rewrite for_each_cons.
    destruct (server_step_due name h) as (evs1 & H1 & F1).
    destruct (step name h) as [[u|e] h1]; cbn in H1; subst h1.
    + destruct (IH (h ++ evs1)) as (evs2 & H2 & F2).
      exists (evs1 ++ evs2). rewrite H2, app_assoc. split; [reflexivity|].
      intros before s n. rewrite drops_at_app, in_app_iff. intros [Hin|Hin].
      * destruct (F1 before s n Hin) as (-> & -> & He).
        repeat split; [now left|exact He].
      * destruct (F2 before s n Hin) as (-> & Hn & He).
        repeat split; [now right|exact He].
    + exists evs1. split; [reflexivity|].
      intros before s n Hin. destruct (F1 before s n Hin) as (-> & -> & He).
      repeat split; [now left|exact He].
Qed.

(** X7.  With a pattern that compiles and a clock within range, the loop
    of the server generation gets through all the partitions, whatever the
    DROP statements answer: the lines that close a partition list the
    partitions in order. *)
Lemma server_loop_processes_all (names : list string) (delta : Z) :
  (forall n, In n names ->
     exists b, re_match (partition_pattern (table_name self)) n = Ok b) ->
  timedelta_seconds seconds = Ok delta ->
  (forall h, exists cutoff, datetime_sub (now_utc env h) delta = Ok cutoff) ->
  forall h,
  exists evs,
    for_each step names h = (Ok tt, h ++ evs)
    /\ partitions_closed evs = names.
Proof.
  intros Hre Ht Hclock. induction names as [|name names IH]; intros h.
  - exists []. cbn. now rewrite app_nil_r.
  - rewrite for_each_cons.
    assert (Hstep : exists evs1, step name h = (Ok tt, h ++ evs1)
                                 /\ partitions_closed evs1 = [name]).
    { rewrite server_step_run.
      destruct (Hre name (or_introl eq_refl)) as [b ->].
      destruct b; [|eexists; split; reflexivity].
      destruct (Server.PostgresTableModel.partition_datetime name);
        [|eexists; split; reflexivity].
      rewrite Ht. cbv zeta. destruct (Hclock h) as [cutoff ->].
      destruct (_ <? _)%Z.
      - eexists. rewrite <- app_assoc. split; [reflexivity|].
        cbn. destruct (drop_reply env _ _ _); reflexivity.
      - eexists. split; reflexivity. }
    destruct Hstep as (evs1 & -> & Hc1).
    destruct (IH (fun n Hn => Hre n (or_intror Hn)) (h ++ evs1))
      as (evs2 & -> & Hc2).
    exists (evs1 ++ evs2). rewrite app_assoc. split; [reflexivity|].
    now rewrite partitions_closed_app, Hc1, Hc2.
Qed.

End ServerLoop.

(** ** The pruning pass, server generation *)

Section ServerPass.
Variable re_match : string -> string -> result bool.
Variable env : environment.

(** Every DROP the time-based pass sends is for a child the catalog
    listed for this table, in the table's schema, and the child was due
    under the table's own retention at the clock reading that precedes
    the DROP. *)
Lemma server_pass_due (self : PostgresTableModel) (h : history) :
  exists evs,
    snd (Server.PostgresTableModel._drop_table_partitions re_match env self h)
    = h ++ evs
    /\ forall before s n, In (before, (s, n)) (drops_at h evs) ->
         s = schema self
         /\ (exists children,
               partitions_reply env h (table_name self) (Some (schema self))
               = Ok children /\ In n children)
         /\ exists P tr,
              retention_policy self = Some P /\ timeretention P = Some tr
              /\ dropped_when_due re_match env self (retention_seconds tr)
                   before n.
Proof.
  unfold Server.PostgresTableModel._drop_table_partitions. run_M.
  destruct (partitions_reply env h (table_name self) (Some (schema self)))
    as [children|e] eqn:Hq;
    [|eexists; split; [reflexivity|contradiction]].
  destruct (retention_policy self) as [P|] eqn:HP;
    [|eexists; rewrite <- app_assoc; split; [reflexivity|contradiction]].
  destruct (timeretention P) as [tr|] eqn:Htr;
    [|eexists; rewrite <- app_assoc; split; [reflexivity|contradiction]].
  destruct (server_loop_due re_match env self (retention_seconds tr)
              children (h ++ [SelectPartitions (table_name self)
                                (Some (schema self)) (Ok children)]))
    as (evs & Hevs & F).
  destruct (for_each _ children _) as [[u|e] h1]; cbn in Hevs; subst h1.
  - destruct (commit_reply env _); eexists; rewrite <- !app_assoc;
      (split; [reflexivity|]); cbn [app drops_at]; rewrite drops_at_app;
      cbn [app drops_at]; rewrite app_nil_r; intros before s n Hin;
      destruct (F before s n Hin) as (-> & Hn & He);
      repeat split; eauto 8.
  - eexists. rewrite <- !app_assoc. split; [reflexivity|].
    cbn [app drops_at]. intros before s n Hin.
    destruct (F before s n Hin) as (-> & Hn & He).
    repeat split; eauto 8.
Qed.

(** X6.  A pass of the server generation over partitions that are all
    unrecognised skips each one and commits: it ends as the commit ends, having sent no DROP. *)
Lemma server_pass_skips_unrecognised (self : PostgresTableModel)
    (P : DataRetentionPolicy) (tr : DataRetentionPolicyTimeRetention)
    (children : list string) (h : history) :
  retention_policy self = Some P ->
  timeretention P = Some tr ->
  partitions_reply env h (table_name self) (Some (schema self)) = Ok children ->
  Forall (unrecognised re_match self) children ->
  let h1 := h ++ SelectPartitions (table_name self) (Some (schema self))
                   (Ok children)
              :: map (skip_note re_match self) children in
  Server.PostgresTableModel._drop_table_partitions re_match env self h
  = (commit_reply env h1, h1 ++ [Commit (commit_reply env h1)]).
Proof.
  intros HP Htr Hq Hall h1.
  unfold Server.PostgresTableModel._drop_table_partitions. run_M.
  rewrite Hq, HP, Htr.
  rewrite (server_loop_skips re_match env self (retention_seconds tr)
             children Hall).
  rewrite <- app_assoc. cbn [app]. fold h1.
  destruct (commit_reply env h1) as [[]|e]; reflexivity.
Qed.

End ServerPass.

(** The scenario of the specification: [events] has an old partition, one
    dated in the future, one named [events_pARCHIVE] and one whose digits
    are no date; the pass drops the first, keeps the second, skips the
    other two and commits, and the table's outcome is a success. *)
Example server_scenario_run :
  Server.prune_tables re_match_lib
    (static_env ["events"%string]
       ["events_p20230101_000000"; "events_p99990101_000000";
        "events_pARCHIVE"; "events_p20231301_000000"]%string []
       NEW_YEAR_2024 NEW_YEAR_2024)
    [api_table "events" (api_time_policy 15)] []
  = (Ok [ {| Server.Response.table_name := "events";
             Server.Response.schema_name := "public";
             Server.Response.status := "success";
             Server.Response.message :=
               Some (Server.Response.SuccessfullyProcessed "public" "events") |} ],
     [Connect (Ok tt);
      SelectTableExists "events" "public" (Ok (Some true));
      SelectPartitions "events" (Some "public"%string)
        (Ok ["events_p20230101_000000"; "events_p99990101_000000";
             "events_pARCHIVE"; "events_p20231301_000000"]%string);
      NowUtc NEW_YEAR_2024;
      Printed (Attempting "events_p20230101_000000"
                 (to_us (mk_datetime 2023 1 1 0 0 0 0))
                 (NEW_YEAR_2024 - 15000000));
      DropTableIfExists "public" "events_p20230101_000000" (Ok tt);
      Printed (Dropped "events_p20230101_000000");
      NowUtc NEW_YEAR_2024;
      Printed (NotDropped "events_p99990101_000000");
      Printed (SkipFormat "events_pARCHIVE");
      Printed (SkipParse "events_p20231301_000000"
                 (StrptimeError (UnconvertedData "0")));
      Commit (Ok tt);
      Close]).
Proof. vm_compute. reflexivity. Qed.

(** ** The script generation on explicit inputs *)

(** C1, failing run.  The script's pass over [public.test_table1], whose
    only partition is dated in the future: no partition is eligible, and
    the one DROP the pass sends is for the parent table itself. *)
Theorem legacy_drops_the_parent_table :
  Legacy.PostgresTableModel._drop_table re_match_lib
    future_partition_database test_table1 []
  = (Ok tt,
     [SelectPartitions "test_table1" None
        (Ok ["test_table1_p99990101_000000"%string]);
      NowLocal NEW_YEAR_2024;
      Printed (NotDropped "test_table1_p99990101_000000");
      Commit (Ok tt);
      DropTableIfExists "public" "test_table1" (Ok tt);
      Commit (Ok tt)]).
Proof. vm_compute. reflexivity. Qed.

(** C2, failing run.  [public.test_table1] is absent from the catalog;
    the script's [validate] still returns true, and [main] goes on to
    prune the table. *)
Theorem legacy_prunes_absent_table :
  Legacy.PostgresTableModel.validate empty_database test_table1 []
  = (Ok true, [SelectTableExists "test_table1" "public" (Ok (Some false))])
  /\ Legacy.main re_match_lib empty_database []
     = (Ok tt,
        [Connect (Ok tt);
         SelectTableExists "test_table1" "public" (Ok (Some false));
         SelectPartitions "test_table1" None (Ok []);
         Commit (Ok tt);
         DropTableIfExists "public" "test_table1" (Ok tt);
         Commit (Ok tt)]).
Proof. split; vm_compute; reflexivity. Qed.

(** C3, failing run.  It is 2024-01-01T00:00:00 UTC on a host whose zone
    is UTC, the retention is fifteen seconds, and the partition is stamped
    2023-12-31T23:59:55: five seconds old, after the cutoff of 23:59:45.
    The script drops it. *)
Theorem legacy_drops_partition_inside_window :
  Legacy.PostgresTableModel.partition_datetime "test_table1_p20231231_235955"
  = Ok (mk_datetime 2023 12 31 23 59 55 0)
  /\ (NEW_YEAR_2024 - 15 * 1000000
      <? to_us (mk_datetime 2023 12 31 23 59 55 0))%Z = true
  /\ Legacy.PostgresTableModel.drop_partition_if_old re_match_lib
       fresh_partition_database test_table1 "test_table1_p20231231_235955" []
     = (Ok tt,
        [NowLocal NEW_YEAR_2024;
         DropTableIfExists "public" "test_table1_p20231231_235955" (Ok tt);
         Printed (Dropped "test_table1_p20231231_235955")]).
Proof. repeat split; vm_compute; reflexivity. Qed.

(** C7, failing run.  The first partition's digits are no date (month
    13): [strptime] raises, nothing in the script's pass handles it, and
    the pass ends there -- the second partition is never looked at and
    nothing is committed. *)
Theorem legacy_invalid_date_aborts_pass :
  Legacy.PostgresTableModel._drop_table re_match_lib bad_date_database
    test_table1 []
  = (Raise (StrptimeError DoesNotMatchFormat),
     [SelectPartitions "test_table1" None
        (Ok ["test_table1_p20231301_000000";
             "test_table1_p20200101_000000"]%string)])
  /\ Legacy.main re_match_lib bad_date_database []
     = (Raise (StrptimeError DoesNotMatchFormat),
        [Connect (Ok tt);
         SelectTableExists "test_table1" "public" (Ok (Some true));
         SelectPartitions "test_table1" None
           (Ok ["test_table1_p20231301_000000";
                "test_table1_p20200101_000000"]%string)]).
Proof. split; vm_compute; reflexivity. Qed.

(** C8, failing run.  Two partitions are eligible and the DROP of the
    first fails: the exception leaves the script's pass, and the second
    partition is never attempted. *)
Theorem legacy_drop_failure_aborts_pass :
  Legacy.PostgresTableModel._drop_table re_match_lib locked_partition_database
    test_table1 []
  = (Raise (DbError "lock timeout"),
     [SelectPartitions "test_table1" None
        (Ok ["test_table1_p20200101_000000";
             "test_table1_p20200102_000000"]%string);
      NowLocal NEW_YEAR_2024;
      DropTableIfExists "public" "test_table1_p20200101_000000"
        (Raise (DbError "lock timeout"))])
  /\ Legacy.main re_match_lib locked_partition_database []
     = (Raise (DbError "lock timeout"),
        [Connect (Ok tt);
         SelectTableExists "test_table1" "public" (Ok (Some true));
         SelectPartitions "test_table1" None
           (Ok ["test_table1_p20200101_000000";
                "test_table1_p20200102_000000"]%string);
         NowLocal NEW_YEAR_2024;
         DropTableIfExists "public" "test_table1_p20200101_000000"
           (Raise (DbError "lock timeout"))]).
Proof. split; vm_compute; reflexivity. Qed.

(** The same database under the server generation: the failed DROP is
    printed, the second partition is dropped, and the pass commits. *)
Example server_drop_failure_run :
  Server.PostgresTableModel._drop_table_partitions re_match_lib
    locked_partition_database test_table1 []
  = (Ok tt,
     [SelectPartitions "test_table1" (Some "public"%string)
        (Ok ["test_table1_p20200101_000000";
             "test_table1_p20200102_000000"]%string);
      NowUtc NEW_YEAR_2024;
      Printed (Attempting "test_table1_p20200101_000000"
                 (to_us (mk_datetime 2020 1 1 0 0 0 0))
                 (NEW_YEAR_2024 - 15000000));
      DropTableIfExists "public" "test_table1_p20200101_000000"
        (Raise (DbError "lock timeout"));
      Printed (DropError "test_table1_p20200101_000000"
                 (DbError "lock timeout"));
      NowUtc NEW_YEAR_2024;
      Printed (Attempting "test_table1_p20200102_000000"
                 (to_us (mk_datetime 2020 1 2 0 0 0 0))
                 (NEW_YEAR_2024 - 15000000));
      DropTableIfExists "public" "test_table1_p20200102_000000" (Ok tt);
      Printed (Dropped "test_table1_p20200102_000000");
      Commit (Ok tt)]).
Proof. vm_compute. reflexivity. Qed.

(** ** Strings *)

Lemma string_app_assoc (a b c : string) :
  ((a ++ b) ++ c = a ++ (b ++ c))%string.
Proof. induction a as [|x a IH]; cbn; [reflexivity|now rewrite IH]. Qed.

Lemma string_app_nil_r (a : string) : (a ++ "")%string = a.
Proof. induction a as [|x a IH]; cbn; [reflexivity|now rewrite IH]. Qed.

Lemma string_length_app (a b : string) :
  String.length (a ++ b) = String.length a + String.length b.
Proof. induction a as [|x a IH]; cbn; [reflexivity|now rewrite IH]. Qed.

(** ** The pattern of a table whose name is made of word characters *)

Lemma word_char_is_plain (c : ascii) :
  is_word_char c = true ->
  Ascii.eqb c "^" = false /\ Ascii.eqb c "$" = false
  /\ Ascii.eqb c "." = false /\ Ascii.eqb c "\" = false
  /\ Ascii.eqb c "{" = false /\ is_unsupported_special c = false.
Proof.
  destruct c as [[] [] [] [] [] [] [] []]; intros H;
    try discriminate H; repeat split; reflexivity.
Qed.

Lemma compile_plain_char (c : ascii) (st : pstate) (acc : list node)
    (s : string) :
  is_word_char c = true ->
  between_items st ->
  compile_go st acc (String c s)
  = compile_go (PAtom (ALit c)) (flush st acc) s.
Proof.
  intros Hc Hst.
  destruct (word_char_is_plain c Hc) as (H1 & H2 & H3 & H4 & H5 & H6).
  destruct Hst as [-> | [a ->]]; cbn [compile_go flush];
    rewrite ?H1, ?H2, ?H3, ?H4, ?H5, ?H6; reflexivity.
Qed.

Lemma compile_word (w : string) :
  string_forallb is_word_char w = true ->
  forall (st : pstate) (acc : list node) (rest : string),
    between_items st ->
    exists st' acc',
      between_items st'
      /\ compile_go st acc (w ++ rest) = compile_go st' acc' rest
      /\ flush st' acc' = rev (literal_nodes w) ++ flush st acc.
Proof.
  induction w as [|c w IH]; intros Hw st acc rest Hst.
  - exists st, acc. repeat split; auto.
  - cbn in Hw. apply andb_prop in Hw. destruct Hw as [Hc Hw].
    destruct (IH Hw (PAtom (ALit c)) (flush st acc) rest)
      as (st' & acc' & Hst' & Hgo & Hfl).
    { right. now exists (ALit c). }
    exists st', acc'. repeat split; auto.
    + cbn [append]. rewrite (compile_plain_char c st acc _ Hc Hst). exact Hgo.
    + rewrite Hfl. cbn. now rewrite <- app_assoc.
Qed.

Lemma compile_tail_rev (st : pstate) (acc : list node) :
  between_items st ->
  compile_go st acc "_p\d{8}_\d{6}$"
  = Some (rev (NEol :: NAtom ADigit 6 :: NAtom (ALit "_") 1 :: NAtom ADigit 8
               :: NAtom (ALit "p") 1 :: NAtom (ALit "_") 1 :: flush st acc)).
Proof.
  intros [-> | [a ->]]; vm_compute; reflexivity.
Qed.

Lemma compile_tail (st : pstate) (acc : list node) :
  between_items st ->
  compile_go st acc "_p\d{8}_\d{6}$"
  = Some (rev (flush st acc) ++ tail_nodes).
Proof.
  intros Hst. rewrite (compile_tail_rev st acc Hst).
  cbn [rev]. unfold tail_nodes. rewrite <- !app_assoc. reflexivity.
Qed.

(** The pattern of such a table compiles to the literal name between the
    start anchor and the constant tail. *)
Lemma compile_partition_pattern (parent : string) :
  string_forallb is_word_char parent = true ->
  re_compile (partition_pattern parent)
  = Some (NBol :: literal_nodes parent ++ tail_nodes).
Proof.
  intros Hw. unfold re_compile, partition_pattern. cbn [append compile_go].
  change (Ascii.eqb "^" "^") with true. cbv iota.
  destruct (compile_word parent Hw PStart [NBol] "_p\d{8}_\d{6}$")
    as (st' & acc' & Hst' & Hgo & Hfl); [now left|].
  rewrite Hgo, (compile_tail st' acc' Hst'), Hfl.
  cbn [flush]. rewrite rev_app_distr, rev_involutive. reflexivity.
Qed.

Lemma match_repeat_digits (n : nat) :
  forall s s' : string,
    match_repeat ADigit n s = Some s' <->
    exists d, digits n d /\ s = (d ++ s')%string.
Proof.
  unfold digits.
  induction n as [|n IH]; intros s s'; cbn [match_repeat].
  - split.
    + intros H. inversion H. exists EmptyString. now repeat split.
    + intros (d & (Hl & _) & ->). destruct d; [reflexivity|discriminate].
  - destruct s as [|c s].
    + split; [discriminate|].
      intros (d & (Hl & _) & Hs). destruct d; discriminate.
    + cbn [atom_matches]. split.
      * destruct (is_digit c) eqn:Hc; [|discriminate].
        intros H. apply IH in H. destruct H as (d & (Hl & Hd) & ->).
        exists (String c d). cbn. rewrite Hl, Hc, Hd. now repeat split.
      * intros (d & (Hl & Hd) & Hs). destruct d as [|x d]; [discriminate|].
        cbn in Hl, Hd, Hs. inversion Hs; subst x s.
        apply andb_prop in Hd. destruct Hd as [Hx Hd]. rewrite Hx.
        apply IH. exists d. repeat split; auto.
Qed.

Lemma match_literal_node (c : ascii) (r : list node) (pos : nat) (s : string) :
  match_nodes (NAtom (ALit c) 1 :: r) pos s = true <->
  exists s', s = String c s' /\ match_nodes r (pos + 1) s' = true.
Proof.
  cbn. destruct s as [|x s].
  - split; [discriminate|]. intros (s' & H & _). discriminate.
  - destruct (Ascii.eqb_spec x c) as [->|Hne].
    + split; [intros H; now exists s|].
      intros (s' & H & Hm). now inversion H; subst.
    + split; [discriminate|]. intros (s' & H & _). inversion H. contradiction.
Qed.

Lemma match_digit_node (n : nat) (r : list node) (pos : nat) (s : string) :
  match_nodes (NAtom ADigit n :: r) pos s = true <->
  exists d s', digits n d /\ s = (d ++ s')%string
               /\ match_nodes r (pos + n) s' = true.
Proof.
  cbn [match_nodes]. split.
  - destruct (match_repeat ADigit n s) as [s'|] eqn:E; [|discriminate].
    intros Hm. apply match_repeat_digits in E. destruct E as (d & Hd & ->).
    now exists d, s'.
  - intros (d & s' & Hd & -> & Hm).
    assert (E : match_repeat ADigit n (d ++ s') = Some s').
    { apply match_repeat_digits. now exists d. }
    now rewrite E.
Qed.

Lemma at_end_cases (s : string) :
  at_end s = true <-> s = EmptyString \/ s = LF_string.
Proof.
  unfold at_end, LF_string. destruct s as [|c [|d s]].
  - split; auto.
  - destruct (Ascii.eqb_spec c LF) as [->|Hne].
    + split; auto.
    + split; [discriminate|]. intros [H|H]; [discriminate|].
      inversion H. contradiction.
  - split; [discriminate|]. intros [H|H]; discriminate.
Qed.

Lemma match_literal (w : string) (ns : list node) :
  forall (pos : nat) (s : string),
    match_nodes (literal_nodes w ++ ns) pos s = true <->
    exists s', s = (w ++ s')%string
               /\ match_nodes ns (pos + String.length w) s' = true.
Proof.
  induction w as [|c w IH]; intros pos s.
  - cbn. rewrite Nat.add_0_r. split.
    + intros H. now exists s.
    + now intros (s' & -> & H).
  - cbn [literal_nodes app]. rewrite match_literal_node. split.
    + intros (s1 & -> & H). apply IH in H. destruct H as (s' & -> & H).
      exists s'. split; [reflexivity|].
      cbn [String.length]. now replace (pos + S (String.length w))
        with (pos + 1 + String.length w) by lia.
    + intros (s' & -> & H). exists (w ++ s')%string. split; [reflexivity|].
      apply IH. exists s'. split; [reflexivity|].
      cbn [String.length] in H. now replace (pos + 1 + String.length w)
        with (pos + S (String.length w)) by lia.
Qed.

Lemma match_tail (pos : nat) (s : string) :
  match_nodes tail_nodes pos s = true <->
  exists date time tl,
    digits 8 date /\ digits 6 time /\ (tl = EmptyString \/ tl = LF_string)
    /\ s = ("_p" ++ date ++ "_" ++ time ++ tl)%string.
Proof.
  unfold tail_nodes. split.
  - intros H.
    apply match_literal_node in H. destruct H as (s1 & -> & H).
    apply match_literal_node in H. destruct H as (s2 & -> & H).
    apply match_digit_node in H. destruct H as (date & s3 & Hd & -> & H).
    apply match_literal_node in H. destruct H as (s4 & -> & H).
    apply match_digit_node in H. destruct H as (time & s5 & Ht & -> & H).
    cbn in H. rewrite andb_true_r in H. apply at_end_cases in H.
    exists date, time, s5. repeat split; auto; apply Hd || apply Ht.
  - intros (date & time & tl & Hd & Ht & Htl & ->).
    apply match_literal_node. eexists. split; [reflexivity|].
    apply match_literal_node. eexists. split; [reflexivity|].
    apply match_digit_node. exists date. eexists. repeat split; try apply Hd.
    apply match_literal_node. eexists. split; [reflexivity|].
    apply match_digit_node. exists time, tl. repeat split; try apply Ht.
    cbn. rewrite andb_true_r. now apply at_end_cases.
Qed.

(** For a table whose name is made of letters, digits and underscores, the
    filter accepts exactly the names of the convention and those names
    followed by one line feed. *)
Lemma word_pattern_matches (parent name : string) :
  string_forallb is_word_char parent = true ->
  exists b,
    re_match (partition_pattern parent) name = Some b
    /\ (b = true <->
        is_convention_name parent name
        \/ exists n0, is_convention_name parent n0
                      /\ name = (n0 ++ LF_string)%string).
Proof.
  intros Hw. unfold re_match.
  rewrite (compile_partition_pattern parent Hw).
  eexists. split; [reflexivity|].
  cbn [match_nodes Nat.eqb andb]. rewrite match_literal. split.
  - intros (s' & -> & H). apply match_tail in H.
    destruct H as (date & time & tl & Hd & Ht & [-> | ->] & ->).
    + left. exists date, time. rewrite string_app_nil_r.
      split; [exact Hd | split; [exact Ht | reflexivity]].
    + right. exists (parent ++ "_p" ++ date ++ "_" ++ time)%string. split.
      * exists date, time.
        split; [exact Hd | split; [exact Ht | reflexivity]].
      * rewrite !string_app_assoc. reflexivity.
  - intros [(date & time & Hd & Ht & ->)
           | (n0 & (date & time & Hd & Ht & ->) & ->)].
    + exists ("_p" ++ date ++ "_" ++ time)%string. split; [reflexivity|].
      apply match_tail. exists date, time, EmptyString.
      rewrite string_app_nil_r.
      split; [exact Hd | split; [exact Ht | split; [now left | reflexivity]]].
    + exists ("_p" ++ date ++ "_" ++ time ++ LF_string)%string. split.
      * rewrite !string_app_assoc. reflexivity.
      * apply match_tail. exists date, time, LF_string.
        split; [exact Hd | split; [exact Ht | split; [now right | reflexivity]]].
Qed.

(** The pattern of a table named with letters, digits and underscores is
    in the fragment: [re_match_lib] answers a match or no match for it. *)
Lemma re_match_lib_on_word_table (parent name : string) :
  string_forallb is_word_char parent = true ->
  exists b, re_match_lib (partition_pattern parent) name = Ok b.
Proof.
  intros Hw. destruct (word_pattern_matches parent name Hw) as (b & Hb & _).
  exists b. unfold re_match_lib. now rewrite Hb.
Qed.

(** ** The filter on [str] names *)

Lemma unicode_plain_char_tests (c : N) :
  Unicode.is_special c = false ->
  N.eqb c (Unicode.chr "^") = false /\ N.eqb c (Unicode.chr "$") = false
  /\ N.eqb c (Unicode.chr ".") = false /\ N.eqb c (Unicode.chr "\") = false
  /\ N.eqb c (Unicode.chr "{") = false
  /\ Unicode.is_unsupported_special c = false.
Proof.
  unfold Unicode.is_special. intros H.
  apply orb_false_elim in H. destruct H as [H1 H2].
  cbn [existsb map] in H1.
  repeat (apply orb_false_elim in H1; destruct H1 as [? H1]).
  repeat split; try assumption.
  unfold Unicode.is_unsupported_special in H2. cbn [existsb map] in H2.
  repeat (apply orb_false_elim in H2; destruct H2 as [? H2]).
  assumption.
Qed.

(** Letters, digits and underscores have no meaning of their own in a
    pattern. *)
Lemma unicode_word_char_is_plain (c : N) :
  Unicode.is_word_char c = true -> Unicode.is_special c = false.
Proof.
  intros Hw. unfold Unicode.is_special, Unicode.is_unsupported_special.
  cbn [existsb map]. rewrite !orb_false_r.
  repeat (apply orb_false_intro);
    apply N.eqb_neq; intros ->; vm_compute in Hw; discriminate Hw.
Qed.

Lemma unicode_compile_plain_char (c : N) (st : Unicode.pstate)
    (acc : list Unicode.node) (s : Unicode.str) :
  Unicode.is_special c = false ->
  Unicode.between_items st ->
  Unicode.compile_go st acc (c :: s)
  = Unicode.compile_go (Unicode.PAtom (Unicode.ALit c))
      (Unicode.flush st acc) s.
Proof.
  intros Hc Hst.
  destruct (unicode_plain_char_tests c Hc) as (H1 & H2 & H3 & H4 & H5 & H6).
  destruct Hst as [-> | [a ->]]; cbn [Unicode.compile_go Unicode.flush];
    rewrite ?H1, ?H2, ?H3, ?H4, ?H5, ?H6; reflexivity.
Qed.

Lemma unicode_compile_word (w : Unicode.str) :
  forallb Unicode.is_word_char w = true ->
  forall (st : Unicode.pstate) (acc : list Unicode.node) (rest : Unicode.str),
    Unicode.between_items st ->
    exists st' acc',
      Unicode.between_items st'
      /\ Unicode.compile_go st acc (w ++ rest) = Unicode.compile_go st' acc' rest
      /\ Unicode.flush st' acc'
         = rev (Unicode.literal_nodes w) ++ Unicode.flush st acc.
Proof.
  induction w as [|c w IH]; intros Hw st acc rest Hst.
  - exists st, acc. repeat split; auto.
  - cbn in Hw. apply andb_prop in Hw. destruct Hw as [Hc Hw].
    destruct (IH Hw (Unicode.PAtom (Unicode.ALit c)) (Unicode.flush st acc) rest)
      as (st' & acc' & Hst' & Hgo & Hfl).
    { right. now exists (Unicode.ALit c). }
    exists st', acc'. repeat split; auto.
    + cbn [app].
      rewrite (unicode_compile_plain_char c st acc _
                 (unicode_word_char_is_plain c Hc) Hst).
      exact Hgo.
    + rewrite Hfl. cbn. now rewrite <- app_assoc.
Qed.

Lemma unicode_compile_tail_rev (st : Unicode.pstate) (acc : list Unicode.node) :
  Unicode.between_items st ->
  Unicode.compile_go st acc (Unicode.of_string "_p\d{8}_\d{6}$")
  = Some (rev (Unicode.NEol :: Unicode.NAtom Unicode.ADigit 6
               :: Unicode.NAtom (Unicode.ALit (Unicode.chr "_")) 1
               :: Unicode.NAtom Unicode.ADigit 8
               :: Unicode.NAtom (Unicode.ALit (Unicode.chr "p")) 1
               :: Unicode.NAtom (Unicode.ALit (Unicode.chr "_")) 1
               :: Unicode.flush st acc)).
Proof.
  intros [-> | [a ->]]; vm_compute; reflexivity.
Qed.

(** The pattern of a table whose name is made of letters, digits and
    underscores compiles to the literal name between the start anchor and
    the constant tail. *)
Lemma unicode_compile_partition_pattern (parent : Unicode.str) :
  forallb Unicode.is_word_char parent = true ->
  Unicode.re_compile (Unicode.partition_pattern parent)
  = Some (Unicode.NBol :: Unicode.literal_nodes parent ++ Unicode.tail_nodes).
Proof.
  intros Hw. unfold Unicode.re_compile, Unicode.partition_pattern.
  cbn [Unicode.compile_go].
  change (N.eqb (Unicode.chr "^") (Unicode.chr "^")) with true. cbv iota.
  destruct (unicode_compile_word parent Hw Unicode.PStart [Unicode.NBol]
              (Unicode.of_string "_p\d{8}_\d{6}$"))
    as (st' & acc' & Hst' & Hgo & Hfl); [now left|].
  rewrite Hgo, (unicode_compile_tail_rev st' acc' Hst').
  cbn [rev]. rewrite Hfl. cbn [Unicode.flush].
  rewrite rev_app_distr, rev_involutive. unfold Unicode.tail_nodes.
  cbn [rev app]. rewrite <- !app_assoc. reflexivity.
Qed.

Section UnicodeFilter.
Variable isdecimal : N -> bool.

Lemma unicode_match_repeat_digits (n : nat) :
  forall s s' : Unicode.str,
    Unicode.match_repeat isdecimal Unicode.ADigit n s = Some s' <->
    exists d, Unicode.digits isdecimal n d /\ s = d ++ s'.
Proof.
  unfold Unicode.digits.
  induction n as [|n IH]; intros s s'; cbn [Unicode.match_repeat].
  - split.
    + intros H. inversion H. exists []. now repeat split.
    + intros (d & (Hl & _) & ->). destruct d; [reflexivity|discriminate].
  - destruct s as [|c s].
    + split; [discriminate|].
      intros (d & (Hl & _) & Hs). destruct d; discriminate.
    + cbn [Unicode.atom_matches]. split.
      * destruct (isdecimal c) eqn:Hc; [|discriminate].
        intros H. apply IH in H. destruct H as (d & (Hl & Hd) & ->).
        exists (c :: d). cbn. rewrite Hl, Hc, Hd. now repeat split.
      * intros (d & (Hl & Hd) & Hs). destruct d as [|x d]; [discriminate|].
        cbn in Hl, Hd, Hs. inversion Hs; subst x s.
        apply andb_prop in Hd. destruct Hd as [Hx Hd]. rewrite Hx.
        apply IH. exists d. repeat split; auto.
Qed.

Lemma unicode_match_literal_node (c : N) (r : list Unicode.node) (pos : nat)
    (s : Unicode.str) :
  Unicode.match_nodes isdecimal (Unicode.NAtom (Unicode.ALit c) 1 :: r) pos s
  = true <->
  exists s', s = c :: s' /\ Unicode.match_nodes isdecimal r (pos + 1) s' = true.
Proof.
  cbn. destruct s as [|x s].
  - split; [discriminate|]. intros (s' & H & _). discriminate.
  - destruct (N.eqb_spec x c) as [->|Hne].
    + split; [intros H; now exists s|].
      intros (s' & H & Hm). now inversion H; subst.
    + split; [discriminate|]. intros (s' & H & _). inversion H. contradiction.
Qed.

Lemma unicode_match_digit_node (n : nat) (r : list Unicode.node) (pos : nat)
    (s : Unicode.str) :
  Unicode.match_nodes isdecimal (Unicode.NAtom Unicode.ADigit n :: r) pos s
  = true <->
  exists d s', Unicode.digits isdecimal n d /\ s = d ++ s'
               /\ Unicode.match_nodes isdecimal r (pos + n) s' = true.
Proof.
  cbn [Unicode.match_nodes]. split.
  - destruct (Unicode.match_repeat isdecimal Unicode.ADigit n s) as [s'|] eqn:E;
      [|discriminate].
    intros Hm. apply unicode_match_repeat_digits in E.
    destruct E as (d & Hd & ->). now exists d, s'.
  - intros (d & s' & Hd & -> & Hm).
    assert (E : Unicode.match_repeat isdecimal Unicode.ADigit n (d ++ s')
                = Some s').
    { apply unicode_match_repeat_digits. now exists d. }
    now rewrite E.
Qed.

Lemma unicode_at_end_cases (s : Unicode.str) :
  Unicode.at_end s = true <-> s = [] \/ s = [Unicode.LF].
Proof.
  unfold Unicode.at_end. destruct s as [|c [|d s]].
  - split; auto.
  - destruct (N.eqb_spec c Unicode.LF) as [->|Hne].
    + split; auto.
    + split; [discriminate|]. intros [H|H]; [discriminate|].
      inversion H. contradiction.
  - split; [discriminate|]. intros [H|H]; discriminate.
Qed.

Lemma unicode_match_literal (w : Unicode.str) (ns : list Unicode.node) :
  forall (pos : nat) (s : Unicode.str),
    Unicode.match_nodes isdecimal (Unicode.literal_nodes w ++ ns) pos s = true
    <->
    exists s', s = w ++ s'
               /\ Unicode.match_nodes isdecimal ns (pos + length w) s' = true.
Proof.
  induction w as [|c w IH]; intros pos s.
  - cbn. rewrite Nat.add_0_r. split.
    + intros H. now exists s.
    + now intros (s' & -> & H).
  - cbn [Unicode.literal_nodes app]. rewrite unicode_match_literal_node. split.
    + intros (s1 & -> & H). apply IH in H. destruct H as (s' & -> & H).
      exists s'. split; [reflexivity|].
      cbn [length]. now replace (pos + S (length w))
        with (pos + 1 + length w) by lia.
    + intros (s' & -> & H). exists (w ++ s'). split; [reflexivity|].
      apply IH. exists s'. split; [reflexivity|].
      cbn [length] in H. now replace (pos + 1 + length w)
        with (pos + S (length w)) by lia.
Qed.

Lemma unicode_match_tail (pos : nat) (s : Unicode.str) :
  Unicode.match_nodes isdecimal Unicode.tail_nodes pos s = true <->
  exists date time tl,
    Unicode.digits isdecimal 8 date /\ Unicode.digits isdecimal 6 time
    /\ (tl = [] \/ tl = [Unicode.LF])
    /\ s = Unicode.of_string "_p" ++ date ++ Unicode.of_string "_" ++ time ++ tl.
Proof.
  unfold Unicode.tail_nodes. split.
  - intros H.
    apply unicode_match_literal_node in H. destruct H as (s1 & -> & H).
    apply unicode_match_literal_node in H. destruct H as (s2 & -> & H).
    apply unicode_match_digit_node in H. destruct H as (date & s3 & Hd & -> & H).
    apply unicode_match_literal_node in H. destruct H as (s4 & -> & H).
    apply unicode_match_digit_node in H. destruct H as (time & s5 & Ht & -> & H).
    cbn in H. rewrite andb_true_r in H. apply unicode_at_end_cases in H.
    exists date, time, s5. repeat split; auto; apply Hd || apply Ht.
  - intros (date & time & tl & Hd & Ht & Htl & ->).
    apply unicode_match_literal_node. eexists. split; [reflexivity|].
    apply unicode_match_literal_node. eexists. split; [reflexivity|].
    apply unicode_match_digit_node. exists date. eexists.
    repeat split; try apply Hd.
    apply unicode_match_literal_node. eexists. split; [reflexivity|].
    apply unicode_match_digit_node. exists time, tl. repeat split; try apply Ht.
    cbn. rewrite andb_true_r. now apply unicode_at_end_cases.
Qed.

(** For a table whose name is made of letters, digits and underscores, the
    filter accepts exactly the names of the convention -- the digits
    being whatever [\d] matches -- and those names followed by one line
    feed. *)
Lemma unicode_word_pattern_matches (parent name : Unicode.str) :
  forallb Unicode.is_word_char parent = true ->
  exists b,
    Unicode.re_match isdecimal (Unicode.partition_pattern parent) name = Some b
    /\ (b = true <->
        Unicode.is_convention_name isdecimal parent name
        \/ exists n0, Unicode.is_convention_name isdecimal parent n0
                      /\ name = n0 ++ [Unicode.LF]).
Proof.
  intros Hw. unfold Unicode.re_match.
  rewrite (unicode_compile_partition_pattern parent Hw).
  eexists. split; [reflexivity|].
  cbn [Unicode.match_nodes Nat.eqb andb]. rewrite unicode_match_literal. split.
  - intros (s' & -> & H). apply unicode_match_tail in H.
    destruct H as (date & time & tl & Hd & Ht & [-> | ->] & ->).
    + left. exists date, time. rewrite app_nil_r.
      split; [exact Hd | split; [exact Ht | reflexivity]].
    + right.
      exists (parent ++ Unicode.of_string "_p" ++ date
              ++ Unicode.of_string "_" ++ time). split.
      * exists date, time.
        split; [exact Hd | split; [exact Ht | reflexivity]].
      * rewrite <- !app_assoc. reflexivity.
  - intros [(date & time & Hd & Ht & ->)
           | (n0 & (date & time & Hd & Ht & ->) & ->)].
    + exists (Unicode.of_string "_p" ++ date ++ Unicode.of_string "_" ++ time).
      split; [reflexivity|].
      apply unicode_match_tail. exists date, time, [].
      rewrite app_nil_r.
      split; [exact Hd | split; [exact Ht | split; [now left | reflexivity]]].
    + exists (Unicode.of_string "_p" ++ date ++ Unicode.of_string "_" ++ time
              ++ [Unicode.LF]). split.
      * rewrite <- !app_assoc. reflexivity.
      * apply unicode_match_tail. exists date, time, [Unicode.LF].
        split; [exact Hd | split; [exact Ht | split; [now right | reflexivity]]].
Qed.

End UnicodeFilter.

(** ** The 8-bit matcher is the matcher on code points, on 8-bit strings *)

Lemma chr_eqb (c d : ascii) :
  N.eqb (Unicode.chr c) (Unicode.chr d) = Ascii.eqb c d.
Proof.
  unfold Unicode.chr. destruct (Ascii.eqb_spec c d) as [->|Hne].
  - apply N.eqb_refl.
  - apply N.eqb_neq. intros H. apply Hne.
    rewrite <- (ascii_N_embedding c), <- (ascii_N_embedding d).
    now rewrite H.
Qed.

Lemma is_count_digit_chr (c : ascii) :
  Unicode.is_count_digit (Unicode.chr c) = is_digit c.
Proof. destruct c as [[] [] [] [] [] [] [] []]; reflexivity. Qed.

Lemma digit_value_chr (c : ascii) :
  Unicode.digit_value (Unicode.chr c) = digit_value c.
Proof. destruct c as [[] [] [] [] [] [] [] []]; reflexivity. Qed.

Lemma is_unsupported_special_chr (c : ascii) :
  Unicode.is_unsupported_special (Unicode.chr c) = is_unsupported_special c.
Proof.
  unfold Unicode.is_unsupported_special, is_unsupported_special.
  cbn [existsb map]. rewrite !chr_eqb. reflexivity.
Qed.

Lemma of_string_app (a b : string) :
  Unicode.of_string (a ++ b) = Unicode.of_string a ++ Unicode.of_string b.
Proof. induction a as [|c a IH]; cbn; [reflexivity|now rewrite IH]. Qed.

Lemma partition_pattern_of_string (table_name : string) :
  Unicode.partition_pattern (Unicode.of_string table_name)
  = Unicode.of_string (partition_pattern table_name).
Proof.
  unfold Unicode.partition_pattern, partition_pattern.
  cbn [append Unicode.of_string]. now rewrite of_string_app.
Qed.

Ltac by_compile_IH IH :=
  match goal with
  | |- _ = option_map _ (compile_go ?st ?acc _) => exact (IH st acc)
  end.

Lemma compile_go_agrees (s : string) :
  forall (st : pstate) (acc : list node),
    Unicode.compile_go (up_state st) (map up_node acc) (Unicode.of_string s)
    = option_map (map up_node) (compile_go st acc s).
Proof.
  induction s as [|c s IH]; intros st acc.
  - destruct st;
      cbn [Unicode.compile_go compile_go Unicode.of_string up_state option_map];
      rewrite ?map_rev; reflexivity.
  - destruct st as [|a| |a n];
      cbn [Unicode.compile_go compile_go Unicode.of_string up_state];
      rewrite ?chr_eqb, ?is_unsupported_special_chr, ?is_count_digit_chr,
        ?digit_value_chr.
    + destruct (Ascii.eqb c "^"); [by_compile_IH IH|].
      destruct (Ascii.eqb c "$"); [by_compile_IH IH|].
      destruct (Ascii.eqb c "."); [by_compile_IH IH|].
      destruct (Ascii.eqb c "\"); [by_compile_IH IH|].
      destruct (is_unsupported_special c); [reflexivity|by_compile_IH IH].
    + destruct (Ascii.eqb c "{"); [by_compile_IH IH|].
      destruct (Ascii.eqb c "^"); [by_compile_IH IH|].
      destruct (Ascii.eqb c "$"); [by_compile_IH IH|].
      destruct (Ascii.eqb c "."); [by_compile_IH IH|].
      destruct (Ascii.eqb c "\"); [by_compile_IH IH|].
      destruct (is_unsupported_special c); [reflexivity|by_compile_IH IH].
    + destruct (Ascii.eqb c "d"); [by_compile_IH IH|reflexivity].
    + destruct (is_digit c); [by_compile_IH IH|].
      destruct (Ascii.eqb c "}"); [|reflexivity].
      destruct n; [by_compile_IH IH|reflexivity].
Qed.

Section Agreement.
Variable isdecimal : N -> bool.
Hypothesis Hlatin1 : latin1_digits isdecimal.

Lemma atom_matches_agrees (a : atom) (c : ascii) :
  Unicode.atom_matches isdecimal (up_atom a) (Unicode.chr c)
  = atom_matches a c.
Proof.
  destruct a; cbn [Unicode.atom_matches atom_matches up_atom].
  - apply chr_eqb.
  - change Unicode.LF with (Unicode.chr LF). now rewrite chr_eqb.
  - apply Hlatin1.
Qed.

Lemma match_repeat_agrees (a : atom) (n : nat) :
  forall s : string,
    Unicode.match_repeat isdecimal (up_atom a) n (Unicode.of_string s)
    = option_map Unicode.of_string (match_repeat a n s).
Proof.
  induction n as [|n IH]; intros s; [reflexivity|].
  destruct s as [|c s]; [reflexivity|].
  cbn [Unicode.match_repeat match_repeat Unicode.of_string].
  rewrite atom_matches_agrees.
  destruct (atom_matches a c); [apply IH|reflexivity].
Qed.

Lemma at_end_agrees (s : string) :
  Unicode.at_end (Unicode.of_string s) = at_end s.
Proof.
  destruct s as [|c [|d s]]; cbn [Unicode.at_end at_end Unicode.of_string];
    try reflexivity.
  change Unicode.LF with (Unicode.chr LF). apply chr_eqb.
Qed.

Lemma match_nodes_agrees (ns : list node) :
  forall (pos : nat) (s : string),
    Unicode.match_nodes isdecimal (map up_node ns) pos (Unicode.of_string s)
    = match_nodes ns pos s.
Proof.
  induction ns as [|n ns IH]; intros pos s; [reflexivity|].
  destruct n as [a k| |]; cbn [map up_node Unicode.match_nodes match_nodes].
  - rewrite match_repeat_agrees.
    destruct (match_repeat a k s) as [s'|]; [apply IH|reflexivity].
  - now rewrite IH.
  - now rewrite at_end_agrees, IH.
Qed.

(** On 8-bit strings, [re_match] of [Py] is the matcher on code points. *)
Lemma re_match_agrees (pattern s : string) :
  Unicode.re_match isdecimal (Unicode.of_string pattern) (Unicode.of_string s)
  = re_match pattern s.
Proof.
  unfold Unicode.re_match, re_match, Unicode.re_compile, re_compile.
  change (Unicode.compile_go Unicode.PStart [] (Unicode.of_string pattern))
    with (Unicode.compile_go (up_state PStart) (map up_node [])
            (Unicode.of_string pattern)).
  rewrite (compile_go_agrees pattern PStart []).
  destruct (compile_go PStart [] pattern) as [ns|]; [|reflexivity].
  cbn [option_map]. now rewrite match_nodes_agrees.
Qed.

End Agreement.

Lemma three_blocks_latin1 : latin1_digits Unicode.three_blocks.
Proof. intros [[] [] [] [] [] [] [] []]; reflexivity. Qed.

(** C10, as the code has it.  The table name goes into the pattern as it
    is.  For a name made of letters, digits and underscores the filter
    accepts the names made of the table name, [_p], eight characters that
    [\d] matches, [_] and six more such characters -- in a [str] these
    are the digits [0]..[9] and the decimal digits of every other script
    -- and also such a name followed by one line feed, which [$] lets
    pass; nothing else.  This holds whatever the table of decimal digits
    is.  For the table name [my.table] the dot matches any character: the
    partition name [myXtable_p20230101_120000] does not start with the
    table name, and both generations accept and decode it. *)
Theorem unescaped_parent_name_in_pattern (isdecimal : N -> bool) :
  (forall parent name : Unicode.str,
     forallb Unicode.is_word_char parent = true ->
     exists b,
       Unicode.re_match isdecimal (Unicode.partition_pattern parent) name
       = Some b
       /\ (b = true <->
           Unicode.is_convention_name isdecimal parent name
           \/ exists n0, Unicode.is_convention_name isdecimal parent n0
                         /\ name = n0 ++ [Unicode.LF]))
  /\ (latin1_digits isdecimal ->
      Unicode.is_special (Unicode.chr ".") = true
      /\ forallb Unicode.is_word_char (Unicode.of_string "my.table") = false
      /\ String.prefix "my.table" "myXtable_p20230101_120000" = false
      /\ Unicode.re_match isdecimal
           (Unicode.partition_pattern (Unicode.of_string "my.table"))
           (Unicode.of_string "myXtable_p20230101_120000")
         = Some true
      /\ Server.PostgresTableModel.partition_datetime
           "myXtable_p20230101_120000"
         = Ok (mk_datetime 2023 1 1 12 0 0 0)
      /\ Legacy.PostgresTableModel.partition_datetime
           "myXtable_p20230101_120000"
         = Ok (mk_datetime 2023 1 1 12 0 0 0)).
Proof.
  split.
  - apply unicode_word_pattern_matches.
  - intros Hlatin1.
    rewrite partition_pattern_of_string, (re_match_agrees isdecimal Hlatin1).
    repeat split; vm_compute; reflexivity.
Qed.

(** With the table [three_blocks] for [\d]. *)
Lemma unescaped_parent_name_in_pattern_witness :
  Unicode.re_match Unicode.three_blocks
    (Unicode.partition_pattern (Unicode.of_string "my.table"))
    (Unicode.of_string "myXtable_p20230101_120000")
  = Some true.
Proof.
  exact (proj1 (proj2 (proj2 (proj2
           (proj2 (unescaped_parent_name_in_pattern Unicode.three_blocks)
              three_blocks_latin1))))).
Defined.

(** A name whose date is written in Arabic-Indic digits passes the filter
    of the table [t], the table [three_blocks] standing for [\d]. *)
Example arabic_indic_digits_pass_filter :
  Unicode.re_match Unicode.three_blocks
    (Unicode.partition_pattern (Unicode.of_string "t"))
    (Unicode.of_string "t_p"
     ++ [1634; 1632; 1634; 1635; 1632; 1633; 1632; 1633]%N
     ++ Unicode.of_string "_000000")
  = Some true.
Proof. vm_compute. reflexivity. Qed.

(** C10 as stated fails: for the table [t] the filter accepts
    [t_p20230101_000000] followed by a line feed, which is not a name of
    the convention. *)
Lemma line_feed_name_passes_filter :
  string_forallb is_word_char "t" = true
  /\ re_match (partition_pattern "t") ("t_p20230101_000000" ++ LF_string)
     = Some true
  /\ (is_convention_name "t" ("t_p20230101_000000" ++ LF_string) -> False).
Proof.
  repeat split; try (vm_compute; reflexivity).
  intros (date & time & (Hd & _) & (Ht & _) & H).
  apply (f_equal String.length) in H.
  rewrite !string_length_app, Hd, Ht in H. cbn in H. lia.
Qed.

(** What the server generation does with such a name: it passes the
    filter, does not decode, and is skipped. *)
Example server_line_feed_name_run :
  Server.PostgresTableModel.drop_partition_if_old re_match_lib
    empty_database (table_with "t" (time_policy 15)) 15
    ("t_p20230101_000000" ++ LF_string) []
  = (Ok tt,
     [Printed (SkipParse ("t_p20230101_000000" ++ LF_string)
                 (StrptimeError (UnconvertedData LF_string)))]).
Proof. vm_compute. reflexivity. Qed.

(** ** Splitting the names of the convention *)

Lemma is_digit_cases (c : ascii) :
  is_digit c = true ->
  c = "0"%char \/ c = "1"%char \/ c = "2"%char \/ c = "3"%char
  \/ c = "4"%char \/ c = "5"%char \/ c = "6"%char \/ c = "7"%char
  \/ c = "8"%char \/ c = "9"%char.
Proof.
  destruct c as [[] [] [] [] [] [] [] []]; intros H;
    try discriminate H; tauto.
Qed.

Lemma digit_is_no_separator (c : ascii) :
  is_digit c = true ->
  Ascii.eqb c "_" = false /\ Ascii.eqb c "p" = false /\ is_space c = false.
Proof.
  intros H.
  destruct (is_digit_cases c H) as [->|[->|[->|[->|[->|[->|[->|[->|[->| ->]]]]]]]]];
    repeat split; reflexivity.
Qed.

Lemma split1_nonempty (sep : ascii) (s : string) : split1 sep s <> [].
Proof.
  destruct s as [|c s]; cbn; [discriminate|].
  destruct (Ascii.eqb c sep); [discriminate|].
  destruct (split1 sep s); discriminate.
Qed.

Lemma cons_head_app (c : ascii) (l m : list string) :
  l <> [] -> cons_head c (l ++ m) = cons_head c l ++ m.
Proof. destruct l; [contradiction|reflexivity]. Qed.

(** Splitting at a separator splits what stands before it and what
    stands after it. *)
Lemma split1_app_sep (sep : ascii) (a b : string) :
  split1 sep (a ++ String sep b) = split1 sep a ++ split1 sep b.
Proof.
  induction a as [|c a IH]; cbn.
  - now rewrite Ascii.eqb_refl.
  - rewrite IH. destruct (Ascii.eqb c sep); [reflexivity|].
    apply cons_head_app, split1_nonempty.
Qed.

Lemma split1_none (sep : ascii) (s : string) :
  string_forallb (fun c => negb (Ascii.eqb c sep)) s = true ->
  split1 sep s = [s].
Proof.
  induction s as [|c s IH]; cbn; [reflexivity|].
  intros H. apply andb_prop in H. destruct H as [Hc Hs].
  apply negb_true_iff in Hc. now rewrite Hc, (IH Hs).
Qed.

Lemma string_forallb_impl (p q : ascii -> bool) (s : string) :
  (forall c, p c = true -> q c = true) ->
  string_forallb p s = true -> string_forallb q s = true.
Proof.
  intros Hpq. induction s as [|c s IH]; cbn; [reflexivity|].
  intros H. apply andb_prop in H. destruct H as [Hc Hs].
  now rewrite (Hpq c Hc), (IH Hs).
Qed.

Lemma split1_digits (s : string) :
  string_forallb is_digit s = true -> split1 "_" s = [s].
Proof.
  intros H. apply split1_none.
  apply (string_forallb_impl is_digit); [|exact H].
  intros c Hc. now destruct (digit_is_no_separator c Hc) as (-> & _).
Qed.

(** The pieces of a name of the convention between underscores end with
    [p] and the date, then the time -- whatever the table's name. *)
Lemma split1_convention (parent date time : string) :
  string_forallb is_digit date = true ->
  string_forallb is_digit time = true ->
  rev (split1 "_" (parent ++ "_p" ++ date ++ "_" ++ time))
  = time :: String "p" date :: rev (split1 "_" parent).
Proof.
  intros Hd Ht.
  change (parent ++ "_p" ++ date ++ "_" ++ time)%string
    with (parent ++ String "_" (String "p" date ++ String "_" time))%string.
  rewrite !split1_app_sep, (split1_digits time Ht).
  assert (Hp : split1 "_" (String "p" date) = [String "p" date]).
  { cbn. now rewrite (split1_digits date Hd). }
  rewrite Hp, !rev_app_distr. reflexivity.
Qed.

Lemma substring_all (s : string) : substring 0 (String.length s) s = s.
Proof. induction s as [|c s IH]; cbn; [reflexivity|now rewrite IH]. Qed.

Lemma split2_none (c1 c2 : ascii) (s : string) :
  no_sep2 c1 c2 s = true -> split2 c1 c2 s = [s].
Proof.
  induction s as [|c s IH]; [reflexivity|].
  cbn [no_sep2 split2]. destruct s as [|d s]; [reflexivity|].
  intros H. apply andb_prop in H. destruct H as [Hc Hs].
  apply negb_true_iff in Hc. rewrite Hc, (IH Hs). reflexivity.
Qed.

(** Where the text before the first [c1 c2] holds no [c1 c2] of its own,
    the split starts with that text. *)
Lemma split2_first (c1 c2 : ascii) (a r : string) :
  c1 <> c2 ->
  no_sep2 c1 c2 a = true ->
  split2 c1 c2 (a ++ String c1 (String c2 r)) = a :: split2 c1 c2 r.
Proof.
  intros Hne. induction a as [|c a IH]; intros Ha.
  - cbn. now rewrite !Ascii.eqb_refl.
  - cbn [append split2].
    destruct a as [|d a].
    + cbn [append]. destruct (Ascii.eqb_spec c c1) as [->|Hc].
      * destruct (Ascii.eqb_spec c1 c2) as [E|_]; [contradiction|].
        cbn [andb]. specialize (IH eq_refl). cbn [append] in IH.
        rewrite IH. reflexivity.
      * cbn [andb]. specialize (IH eq_refl). cbn [append] in IH.
        rewrite IH. reflexivity.
    + cbn [append]. cbn [no_sep2] in Ha.
      apply andb_prop in Ha. destruct Ha as [Hc Ha].
      apply negb_true_iff in Hc. rewrite Hc.
      specialize (IH Ha). cbn [append] in IH. rewrite IH. reflexivity.
Qed.

Lemma no_sep2_digits_tail (date time : string) :
  string_forallb is_digit date = true ->
  string_forallb is_digit time = true ->
  no_sep2 "_" "p" (date ++ String "_" time) = true.
Proof.
  intros Hd Ht.
  assert (Htime : forall t, string_forallb is_digit t = true ->
                            no_sep2 "_" "p" t = true).
  { induction t as [|c t IHt]; [reflexivity|]. cbn.
    intros H. apply andb_prop in H. destruct H as [Hc Hs].
    destruct t as [|d t]; [reflexivity|].
    destruct (digit_is_no_separator c Hc) as (-> & _).
    cbn [andb negb]. now apply IHt. }
  induction date as [|c date IH].
  - cbn. destruct time as [|d time]; [reflexivity|].
    cbn in Ht. apply andb_prop in Ht. destruct Ht as [Hc Hs].
    destruct (digit_is_no_separator d Hc) as (_ & -> & _).
    rewrite ?andb_false_r. cbn [negb andb]. apply Htime.
    cbn. now rewrite Hc, Hs.
  - cbn in Hd. apply andb_prop in Hd. destruct Hd as [Hc Hs].
    cbn [append no_sep2].
    destruct (date ++ String "_" time)%string eqn:E.
    + reflexivity.
    + destruct (digit_is_no_separator c Hc) as (-> & _).
      cbn [andb negb]. now apply IH.
Qed.

(** ** [strptime] on eight and six digits *)

Ltac digit_cases H :=
  let c := match type of H with is_digit ?c = true => c end in
  destruct (is_digit_cases c H)
    as [->|[->|[->|[->|[->|[->|[->|[->|[->| ->]]]]]]]]].

(** Two digits that the directive admits are taken by one of its
    two-character alternatives, the first that is tried with success. *)
Lemma try_two_digits {A} (d : directive) (a b : ascii)
    (k : string -> string -> option A) (s : string) (x : A) :
  is_digit a = true -> is_digit b = true ->
  two_digit_ok d a b = true ->
  k (String a (String b EmptyString)) s = Some x ->
  try_alternatives k (alternatives d) (String a (String b s)) = Some x.
Proof.
  intros Ha Hb Hok Hk.
  destruct d; try discriminate Hok;
    digit_cases Ha; digit_cases Hb;
    try discriminate Hok;
    vm_compute; vm_compute in Hk; rewrite Hk; reflexivity.
Qed.

Lemma match_two_digits (d : directive) (a b : ascii) (fmt' : list directive)
    (s : string) (caps : captures) (rest : string) :
  is_digit a = true -> is_digit b = true ->
  two_digit_ok d a b = true ->
  match_format fmt' s = Some (caps, rest) ->
  match_format (d :: fmt') (String a (String b s))
  = Some ((d, String a (String b EmptyString)) :: caps, rest).
Proof.
  intros Ha Hb Hok Hk.
  assert (Hd : match_format (d :: fmt') (String a (String b s))
               = try_alternatives
                   (fun m r =>
                      match match_format fmt' r with
                      | Some (caps, rest) => Some ((d, m) :: caps, rest)
                      | None => None
                      end)
                   (alternatives d) (String a (String b s))).
  { destruct d; try reflexivity. discriminate Hok. }
  rewrite Hd. apply try_two_digits; auto. now rewrite Hk.
Qed.

Lemma match_year (y1 y2 y3 y4 : ascii) (fmt' : list directive) (s : string)
    (caps : captures) (rest : string) :
  is_digit y1 = true -> is_digit y2 = true ->
  is_digit y3 = true -> is_digit y4 = true ->
  match_format fmt' s = Some (caps, rest) ->
  match_format (DY :: fmt') (String y1 (String y2 (String y3 (String y4 s))))
  = Some ((DY, String y1 (String y2 (String y3 (String y4 EmptyString))))
          :: caps, rest).
Proof.
  intros H1 H2 H3 H4 Hk.
  cbn [match_format alternatives match_classes try_alternatives].
  rewrite H1, H2, H3, H4, Hk. reflexivity.
Qed.

Lemma match_one_space (c : ascii) (fmt' : list directive) (s : string)
    (r : captures * string) :
  is_digit c = true ->
  match_format fmt' (String c s) = Some r ->
  match_format (DSpaces :: fmt') (String " " (String c s)) = Some r.
Proof.
  intros Hc Hk. cbn [match_format spaces_then].
  destruct (digit_is_no_separator c Hc) as (_ & _ & Hs).
  change (is_space " ") with true. cbv iota. rewrite Hs, Hk. reflexivity.
Qed.

Lemma int_of_two_digits (a b : ascii) :
  is_digit a = true -> is_digit b = true ->
  int_of_group 0 (String a (String b EmptyString)) = (10 * dv a + dv b)%Z.
Proof.
  intros Ha Hb. cbn [int_of_group]. rewrite Ha, Hb. unfold dv. lia.
Qed.

Lemma days_in_month_le_31 (y m : Z) : (days_in_month y m <= 31)%Z.
Proof.
  unfold days_in_month. destruct ((m =? 2)%Z && is_leap y); [lia|].
  destruct (Z.to_nat m) as [|[|[|[|[|[|[|[|[|[|[|[|[|[|k]]]]]]]]]]]]]];
    cbn; lia.
Qed.

Ltac split_andb H :=
  repeat match type of H with
         | (_ && _) = true =>
             let H1 := fresh H in
             apply andb_prop in H; destruct H as [H1 H]; split_andb H1
         end.

(** The facts both formats need: the fourteen characters are digits and
    each two-digit field is a value its directive admits. *)
Lemma fields_admitted (y1 y2 y3 y4 m1 m2 d1 d2 H1 H2 M1 M2 S1 S2 : ascii) :
  let date := String y1 (String y2 (String y3 (String y4 (String m1
                (String m2 (String d1 (String d2 EmptyString))))))) in
  let time := String H1 (String H2 (String M1 (String M2 (String S1
                (String S2 EmptyString))))) in
  string_forallb is_digit date = true ->
  string_forallb is_digit time = true ->
  valid_datetime (date_fields date time) = true ->
  two_digit_ok Dm m1 m2 = true /\ two_digit_ok Dd d1 d2 = true
  /\ two_digit_ok DH H1 H2 = true /\ two_digit_ok DM M1 M2 = true
  /\ two_digit_ok DS S1 S2 = true.
Proof.
  intros date time Hd Ht Hv. subst date time.
  cbn [string_forallb] in Hd, Ht. split_andb Hd. split_andb Ht.
  unfold valid_datetime, date_fields in Hv.
  cbn [year month day hour minute second microsecond slice substring Nat.sub]
    in Hv.
  rewrite !int_of_two_digits in Hv by assumption.
  split_andb Hv.
  unfold two_digit_ok. cbv zeta.
  repeat match goal with
         | H : (_ <=? _)%Z = true |- _ => apply Z.leb_le in H
         end.
  match goal with
  | H : (_ <= days_in_month ?y ?m)%Z |- _ =>
      pose proof (days_in_month_le_31 y m)
  end.
  repeat split; rewrite ?andb_true_iff, ?Z.leb_le; lia.
Qed.

Lemma match_time_digits (H1 H2 M1 M2 S1 S2 : ascii) :
  is_digit H1 = true -> is_digit H2 = true -> is_digit M1 = true ->
  is_digit M2 = true -> is_digit S1 = true -> is_digit S2 = true ->
  two_digit_ok DH H1 H2 = true -> two_digit_ok DM M1 M2 = true ->
  two_digit_ok DS S1 S2 = true ->
  match_format [DH; DM; DS]
    (String H1 (String H2 (String M1 (String M2 (String S1
       (String S2 EmptyString))))))
  = Some ([(DH, String H1 (String H2 EmptyString));
           (DM, String M1 (String M2 EmptyString));
           (DS, String S1 (String S2 EmptyString))], EmptyString).
Proof.
  intros. repeat (apply match_two_digits; auto).
Qed.

(** On eight digits and six digits that are a date and a time, [strptime]
    returns that date and time, with either format. *)
Lemma strptime_exact (date time : string) :
  digits 8 date -> digits 6 time ->
  valid_datetime (date_fields date time) = true ->
  strptime (date ++ time) fmt_compact = Ok (date_fields date time)
  /\ strptime (date ++ " " ++ time) fmt_spaced = Ok (date_fields date time).
Proof.
  intros [Hld Hd] [Hlt Ht] Hv.
  destruct date as [|y1 [|y2 [|y3 [|y4 [|m1 [|m2 [|d1 [|d2 [|? ?]]]]]]]]];
    try discriminate Hld.
  destruct time as [|H1 [|H2 [|M1 [|M2 [|S1 [|S2 [|? ?]]]]]]];
    try discriminate Hlt.
  destruct (fields_admitted _ _ _ _ _ _ _ _ _ _ _ _ _ _ Hd Ht Hv)
    as (Om & Od & OH & OM & OS).
  cbn [string_forallb] in Hd, Ht. split_andb Hd. split_andb Ht.
  pose proof (match_time_digits H1 H2 M1 M2 S1 S2) as Htime.
  repeat (match type of Htime with
          | ?P -> _ => let HP := fresh in
                       assert (HP : P) by assumption;
                       specialize (Htime HP); clear HP
          end).
  unfold strptime, fmt_compact, fmt_spaced. cbn [append]. split.
  - erewrite match_year; eauto;
      [|apply match_two_digits; eauto; apply match_two_digits; eauto].
    cbn [field directive_eqb]. unfold date_fields in *.
    cbn [slice substring Nat.sub] in *. now rewrite Hv.
  - erewrite match_year; eauto;
      [|apply match_two_digits; eauto; apply match_two_digits; eauto;
        apply match_one_space; eauto].
    cbn [field directive_eqb]. unfold date_fields in *.
    cbn [slice substring Nat.sub] in *. now rewrite Hv.
Qed.

(** ** Decoding a partition's name *)

(** X4.  The script generation decodes every name of the convention
    whose digits are a date and a time to exactly that date and time, whatever
    the table is called. *)
Lemma legacy_decode_exact (parent date time : string) :
  digits 8 date -> digits 6 time ->
  valid_datetime (date_fields date time) = true ->
  Legacy.PostgresTableModel.partition_datetime
    (parent ++ "_p" ++ date ++ "_" ++ time)
  = Ok (date_fields date time).
Proof.
  intros Hd Ht Hv.
  unfold Legacy.PostgresTableModel.partition_datetime, index_from_end, index.
  rewrite (split1_convention parent date time (proj2 Hd) (proj2 Ht)).
  cbn [nth_error]. unfold slice. cbn [substring Nat.sub].
  destruct Hd as [Hld Hd]. rewrite <- Hld at 1. rewrite substring_all.
  apply strptime_exact; auto; split; auto.
Qed.

(** X5.  The server generation decodes every name of the convention
    whose digits are a date and a time to exactly that date and time, for
    the tables whose name holds no [_p]. *)
Lemma server_decode_exact (parent date time : string) :
  no_sep2 "_" "p" parent = true ->
  digits 8 date -> digits 6 time ->
  valid_datetime (date_fields date time) = true ->
  Server.PostgresTableModel.partition_datetime
    (parent ++ "_p" ++ date ++ "_" ++ time)
  = Ok (date_fields date time).
Proof.
  intros Hp Hd Ht Hv.
  unfold Server.PostgresTableModel.partition_datetime, index_from_end, index.
  rewrite (split1_convention parent date time (proj2 Hd) (proj2 Ht)).
  change (parent ++ "_p" ++ date ++ "_" ++ time)%string
    with (parent ++ String "_" (String "p" (date ++ String "_" time)))%string.
  rewrite split2_first by (discriminate || exact Hp).
  rewrite (split2_none "_" "p" _
             (no_sep2_digits_tail date time (proj2 Hd) (proj2 Ht))).
  cbn [nth_error].
  rewrite split1_app_sep, (split1_digits date (proj2 Hd)),
    (split1_digits time (proj2 Ht)).
  cbn [app nth_error].
  apply strptime_exact; auto.
Qed.

(** C4, failing run.  The table is [user_profiles] and the partition
    [user_profiles_p20230101_120000], a name of the convention for
    2023-01-01T12:00:00.  The filter accepts it.  The server generation
    cuts the name at the first [_p], which lies inside the table's name,
    takes [rofiles] for the date and does not decode; the script
    generation decodes the same name to the timestamp it stands for. *)
Theorem server_decode_fails_inside_table_name :
  re_match (partition_pattern "user_profiles") "user_profiles_p20230101_120000"
  = Some true
  /\ valid_datetime (date_fields "20230101" "120000") = true
  /\ split2 "_" "p" "user_profiles_p20230101_120000"
     = ["user"; "rofiles"; "20230101_120000"]%string
  /\ Server.PostgresTableModel.partition_datetime
       "user_profiles_p20230101_120000"
     = Raise (StrptimeError DoesNotMatchFormat)
  /\ Legacy.PostgresTableModel.partition_datetime
       "user_profiles_p20230101_120000"
     = Ok (mk_datetime 2023 1 1 12 0 0 0)
  /\ Server.PostgresTableModel.drop_partition_if_old re_match_lib
       empty_database (table_with "user_profiles" (time_policy 15)) 15
       "user_profiles_p20230101_120000" []
     = (Ok tt,
        [Printed (SkipParse "user_profiles_p20230101_120000"
                    (StrptimeError DoesNotMatchFormat))]).
Proof. repeat split; vm_compute; reflexivity. Qed.

(** A table name with a date of its own after a [_p]: the server
    generation decodes the table's date, not the partition's. *)
Example server_decode_takes_wrong_date :
  re_match (partition_pattern "log_p20000101_x")
    "log_p20000101_x_p20230101_120000" = Some true
  /\ Server.PostgresTableModel.partition_datetime
       "log_p20000101_x_p20230101_120000"
     = Ok (mk_datetime 2000 1 1 12 0 0 0)
  /\ Legacy.PostgresTableModel.partition_datetime
       "log_p20000101_x_p20230101_120000"
     = Ok (mk_datetime 2023 1 1 12 0 0 0).
Proof. repeat split; vm_compute; reflexivity. Qed.

(** ** The pruning pass, script generation *)

Section LegacyPass.
Variable re_match : string -> string -> result bool.
Variable env : environment.

(** X8.  Whenever the script's pass ends without an exception, it has
    sent a DROP for the parent table. *)
Lemma legacy_pass_drops_parent (self : PostgresTableModel) (h : history) :
  fst (Legacy.PostgresTableModel._drop_table re_match env self h) = Ok tt ->
  exists h0,
    snd (Legacy.PostgresTableModel._drop_table re_match env self h)
    = h0 ++ [DropTableIfExists (schema self) (table_name self) (Ok tt);
             Commit (Ok tt)].
Proof.
  unfold Legacy.PostgresTableModel._drop_table. run_M.
  destruct (partitions_reply env h (table_name self) None) as [children|e];
    [|discriminate].
  destruct (for_each _ children _) as [[u|e] h1]; [|discriminate].
  destruct (commit_reply env h1) as [u1|e]; [|discriminate].
  destruct (drop_reply env _ (schema self) (table_name self)) as [[]|e];
    [|discriminate].
  destruct (commit_reply env _) as [[]|e]; [|discriminate].
  intros _. exists (h1 ++ [Commit (Ok u1)]). cbn.
  now rewrite <- !app_assoc.
Qed.


End LegacyPass.

(** ** Malformed policies and the database *)







(** ** The properties above on explicit inputs *)

(** X1.  Every DROP the server generation's time-based pass sends is for a
    child the catalog listed for this table, in the table's schema, and it
    is sent when the child is due: the DROP comes right after a reading of
    the UTC clock (the clock's answer at that point of this run) and the
    line announcing it, the child's name passes the table's filter and
    decodes to a timestamp, and the timestamp is strictly before that
    reading minus the retention of the table's own policy.  [drops_at]
    lists every DROP of the pass.  No DROP is sent for the parent table, a
    table not being listed among its own children. *)
Theorem server_pass_drops_only_eligible_children
    (re_match : string -> string -> result bool) (env : environment)
    (self : PostgresTableModel) (h : history) :
  exists evs,
    snd (Server.PostgresTableModel._drop_table_partitions re_match env self h)
    = h ++ evs
    /\ map snd (drops_at h evs) = drops evs
    /\ (forall before s n, In (before, (s, n)) (drops_at h evs) ->
          s = schema self
          /\ (exists children,
                partitions_reply env h (table_name self) (Some (schema self))
                = Ok children /\ In n children)
          /\ exists P tr,
               retention_policy self = Some P /\ timeretention P = Some tr
               /\ dropped_when_due re_match env self (retention_seconds tr)
                    before n)
    /\ (forall children,
          partitions_reply env h (table_name self) (Some (schema self))
          = Ok children ->
          ~ In (table_name self) children ->
          ~ In (schema self, table_name self) (drops evs)).
Proof.
  destruct (server_pass_due re_match env self h) as (evs & Hevs & F).
  exists evs. split; [exact Hevs|]. split; [apply drops_at_drops|].
  split; [exact F|].
  intros children Hq Hnot Hin.
  rewrite <- (drops_at_drops evs h) in Hin.
  apply in_map_iff in Hin. destruct Hin as ([before [s n]] & Heq & Hin).
  cbn in Heq. inversion Heq; subst s n.
  destruct (F _ _ _ Hin) as (_ & (c & Hc & Hinc) & _).
  rewrite Hq in Hc. inversion Hc; subst. contradiction.
Qed.

(** The pass over [mixed_database] with fifteen seconds of retention: the
    two dated partitions are dropped, each right after its own reading of
    the clock. *)
Example server_pass_drops_at_run :
  let q := SelectPartitions "events" (Some "public"%string)
             (Ok ["events_pARCHIVE"; "events_p20200101_000000";
                  "events_p20200102_000000"]%string) in
  let skip := Printed (SkipFormat "events_pARCHIVE") in
  let t1 := to_us (mk_datetime 2020 1 1 0 0 0 0) in
  let t2 := to_us (mk_datetime 2020 1 2 0 0 0 0) in
  let cutoff := (NEW_YEAR_2024 - 15 * 1000000)%Z in
  let first := [q; skip; NowUtc NEW_YEAR_2024;
                Printed (Attempting "events_p20200101_000000" t1 cutoff)] in
  let second := first
                ++ [DropTableIfExists "public" "events_p20200101_000000" (Ok tt);
                    Printed (Dropped "events_p20200101_000000");
                    NowUtc NEW_YEAR_2024;
                    Printed (Attempting "events_p20200102_000000" t2 cutoff)] in
  exists evs,
    Server.PostgresTableModel._drop_table_partitions re_match_lib
      mixed_database (table_with "events" (time_policy 15)) []
    = (Ok tt, evs)
    /\ drops_at [] evs
       = [(first, ("public", "events_p20200101_000000"));
          (second, ("public", "events_p20200102_000000"))]%string.
Proof.
  eexists. split; vm_compute; reflexivity.
Qed.

Lemma server_absent_table_not_pruned_witness :
  exists d,
    Server.process_table re_match_lib events_database
      (api_table "nope" (api_time_policy 15)) []
    = (Ok d,
       [] ++ [existence_query events_database
                (Server.table_model_of (api_table "nope" (api_time_policy 15)))
                []])
    /\ Server.Response.status d = "error"%string
    /\ Server.Response.table_name d = "nope"%string
    /\ Server.Response.schema_name d = "public"%string.
Proof.
  exact (proj2 (server_absent_table_not_pruned re_match_lib events_database
                  (api_table "nope" (api_time_policy 15)) []
                  (or_introl eq_refl))).
Defined.

Lemma legacy_validate_ignores_catalog_witness :
  Legacy.PostgresTableModel.validate empty_database test_table1 []
  = (Ok true, [] ++ [existence_query empty_database test_table1 []]).
Proof.
  apply (legacy_validate_ignores_catalog empty_database test_table1
           (time_policy 15) [] false).
  - reflexivity.
  - left. split.
    + eexists. reflexivity.
    + intros (c & cs & H). discriminate H.
  - reflexivity.
Defined.

Lemma server_drop_iff_before_cutoff_witness :
  (NEW_YEAR_2024 - 15000000)%Z
  = (now_utc fresh_partition_database [] - 15 * 1000000)%Z
  /\ exists evs,
       Server.PostgresTableModel.drop_partition_if_old re_match_lib
         fresh_partition_database test_table1 15
         "test_table1_p20231231_235955" []
       = (Ok tt, [] ++ evs)
       /\ (drops evs = [(schema test_table1, "test_table1_p20231231_235955"%string)]
           <-> (to_us (mk_datetime 2023 12 31 23 59 55 0)
                < NEW_YEAR_2024 - 15000000)%Z)
       /\ (drops evs = []
           <-> (NEW_YEAR_2024 - 15000000
                <= to_us (mk_datetime 2023 12 31 23 59 55 0))%Z).
Proof.
  apply (server_drop_iff_before_cutoff re_match_lib fresh_partition_database
           test_table1 15 "test_table1_p20231231_235955" []
           (mk_datetime 2023 12 31 23 59 55 0) 15000000
           (NEW_YEAR_2024 - 15000000));
    vm_compute; reflexivity.
Defined.

Lemma server_loop_processes_all_witness :
  exists evs,
    for_each
      (Server.PostgresTableModel.drop_partition_if_old re_match_lib
         locked_partition_database test_table1 15)
      ["test_table1_p20200101_000000"; "test_table1_p20200102_000000"]%string
      []
    = (Ok tt, [] ++ evs)
    /\ partitions_closed evs
       = ["test_table1_p20200101_000000"; "test_table1_p20200102_000000"]%string.
Proof.
  apply (server_loop_processes_all re_match_lib locked_partition_database
           test_table1 15 _ 15000000).
  - intros n [<- | [<- | []]]; eexists; vm_compute; reflexivity.
  - reflexivity.
  - intros h. eexists. vm_compute. reflexivity.
Defined.

Lemma server_pass_skips_unrecognised_witness :
  Server.PostgresTableModel._drop_table_partitions re_match_lib
    archive_database (table_with "events" (time_policy 15)) []
  = (Ok tt,
     [SelectPartitions "events" (Some "public"%string)
        (Ok ["events_pARCHIVE"%string]);
      Printed (SkipFormat "events_pARCHIVE");
      Commit (Ok tt)]).
Proof.
  apply (server_pass_skips_unrecognised re_match_lib archive_database
           (table_with "events" (time_policy 15)) (time_policy 15)
           {| dt_target_column := "mtime"; retention_seconds := 15 |}
           ["events_pARCHIVE"%string] []).
  - reflexivity.
  - reflexivity.
  - reflexivity.
  - constructor; [|constructor]. left. vm_compute. reflexivity.
Defined.

Lemma legacy_pass_drops_parent_witness :
  exists h0,
    snd (Legacy.PostgresTableModel._drop_table re_match_lib
           future_partition_database test_table1 [])
    = h0 ++ [DropTableIfExists (schema test_table1) (table_name test_table1)
               (Ok tt);
             Commit (Ok tt)].
Proof.
  apply (legacy_pass_drops_parent re_match_lib future_partition_database
           test_table1 []).
  vm_compute. reflexivity.
Defined.


Lemma legacy_decode_exact_witness :
  Legacy.PostgresTableModel.partition_datetime
    ("events" ++ "_p" ++ "20230101" ++ "_" ++ "000000")
  = Ok (date_fields "20230101" "000000").
Proof.
  apply (legacy_decode_exact "events" "20230101" "000000").
  - split; reflexivity.
  - split; reflexivity.
  - vm_compute. reflexivity.
Defined.

Lemma server_decode_exact_witness :
  Server.PostgresTableModel.partition_datetime
    ("events" ++ "_p" ++ "20230101" ++ "_" ++ "000000")
  = Ok (date_fields "20230101" "000000").
Proof.
  apply (server_decode_exact "events" "20230101" "000000").
  - reflexivity.
  - split; reflexivity.
  - split; reflexivity.
  - vm_compute. reflexivity.
Defined.

(* ------------------------------------------------------------------ *)
(** * Further properties of the two generations *)
(* ------------------------------------------------------------------ *)

Lemma statements_app (a b : history) :
  statements (a ++ b) = statements a ++ statements b.
Proof. apply filter_app. Qed.

Lemma validates_exactly_one (P : DataRetentionPolicy) :
  Server.DataRetentionPolicy.validate P = Ok true -> exactly_one_variant P.
Proof.
  unfold exactly_one_variant.
  rewrite <- (timeretention_set_iff P), <- (conditions_set_iff P).
  destruct (server_policy_validate_cases P)
    as [(_ & _ & Hv) | [(_ & _ & Hv) | (Hx & _)]];
    try (rewrite Hv; discriminate).
  intros _. destruct (timeretention_set P), (conditions_set P);
    try discriminate Hx; [left|right]; split; auto; discriminate.
Qed.

Lemma validate_ok_is_true (P : DataRetentionPolicy) (b : bool) :
  Server.DataRetentionPolicy.validate P = Ok b -> b = true.
Proof.
  destruct (server_policy_validate_cases P)
    as [(_ & _ & Hv) | [(_ & _ & Hv) | (_ & Hv)]];
    rewrite Hv; intros H; inversion H; reflexivity.
Qed.

(** ** The order of the statements of a pass *)

Lemma server_step_statements (re_match : string -> string -> result bool)
    (env : environment) (self : PostgresTableModel) (seconds : Z)
    (name : string) (h : history) :
  exists evs,
    snd (Server.PostgresTableModel.drop_partition_if_old re_match env self
           seconds name h) = h ++ evs
    /\ (statements evs = []
        \/ exists r, statements evs = [DropTableIfExists (schema self) name r]).
Proof.
  rewrite server_step_run.
  destruct (re_match _ name) as [[|]|e0];
    try (exists []; rewrite app_nil_r; split; [reflexivity|now left]);
    try (eexists; split; [reflexivity|now left]).
  destruct (Server.PostgresTableModel.partition_datetime name) as [dt|e];
    [|eexists; split; [reflexivity|now left]].
  destruct (timedelta_seconds seconds) as [delta|e];
    [|exists []; rewrite app_nil_r; split; [reflexivity|now left]].
  cbv zeta.
  destruct (datetime_sub (now_utc env h) delta) as [cutoff|e];
    [|eexists; split; [reflexivity|now left]].
  destruct (to_us dt <? cutoff)%Z.
  - eexists. rewrite <- app_assoc. split; [reflexivity|].
    right. eexists. reflexivity.
  - eexists. split; [reflexivity|now left].
Qed.

Lemma server_loop_statements (re_match : string -> string -> result bool)
    (env : environment) (self : PostgresTableModel) (seconds : Z)
    (names : list string) :
  forall h,
  exists evs,
    snd (for_each (Server.PostgresTableModel.drop_partition_if_old re_match
                     env self seconds) names h) = h ++ evs
    /\ Forall (is_drop_in (schema self)) (statements evs).
Proof.
  induction names as [|name names IH]; intros h.
  - exists []. cbn. rewrite app_nil_r. split; [reflexivity|constructor].
  - rewrite for_each_cons.
    destruct (server_step_statements re_match env self seconds name h)
      as (evs1 & H1 & S1).
    assert (D1 : Forall (is_drop_in (schema self)) (statements evs1)).
    { destruct S1 as [-> | [r ->]]; constructor; [|constructor].
      now exists name, r. }
    destruct (Server.PostgresTableModel.drop_partition_if_old re_match env
                self seconds name h) as [[u|e] h1]; cbn in H1; subst h1.
    + destruct (IH (h ++ evs1)) as (evs2 & H2 & D2).
      exists (evs1 ++ evs2). rewrite H2, app_assoc. split; [reflexivity|].
      rewrite statements_app. now apply Forall_app.
    + exists evs1. split; [reflexivity|exact D1].
Qed.

(** X11.  What the server generation's time-based pass sends to the
    session, in order: the partition query, then nothing but DROPs in the
    table's schema, then at most one commit, which comes last and whose
    answer is the answer of the pass.  No existence query, no DELETE, and
    nothing after the commit. *)
Theorem server_pass_statement_order
    (re_match : string -> string -> result bool) (env : environment)
    (self : PostgresTableModel) (h : history) :
  exists evs dropped tail,
    snd (Server.PostgresTableModel._drop_table_partitions re_match env self h)
    = h ++ evs
    /\ statements evs
       = SelectPartitions (table_name self) (Some (schema self))
           (partitions_reply env h (table_name self) (Some (schema self)))
         :: dropped ++ tail
    /\ Forall (is_drop_in (schema self)) dropped
    /\ (tail = []
        \/ exists c,
             tail = [Commit c]
             /\ fst (Server.PostgresTableModel._drop_table_partitions
                       re_match env self h) = c).
Proof.
  unfold Server.PostgresTableModel._drop_table_partitions. run_M.
  destruct (partitions_reply env h (table_name self) (Some (schema self)))
    as [children|e] eqn:Hq.
  2:{ exists [SelectPartitions (table_name self) (Some (schema self))
                (Raise e)], [], [].
      repeat split; auto. }
  destruct (retention_policy self) as [P|].
  2:{ eexists; exists [], []. rewrite <- app_assoc.
      repeat split; auto. }
  destruct (timeretention P) as [tr|].
  2:{ eexists; exists [], []. rewrite <- app_assoc.
      repeat split; auto. }
  destruct (server_loop_statements re_match env self (retention_seconds tr)
              children (h ++ [SelectPartitions (table_name self)
                                (Some (schema self)) (Ok children)]))
    as (evs & Hevs & D).
  destruct (for_each _ children _) as [[u|e] h1]; cbn [snd] in Hevs; subst h1.
  - exists ([SelectPartitions (table_name self) (Some (schema self))
               (Ok children)] ++ evs
            ++ [Commit (commit_reply env
                          ((h ++ [SelectPartitions (table_name self)
                                    (Some (schema self)) (Ok children)])
                           ++ evs))]),
      (statements evs),
      [Commit (commit_reply env
                 ((h ++ [SelectPartitions (table_name self)
                           (Some (schema self)) (Ok children)]) ++ evs))].
    destruct (commit_reply env _) as [[]|e] eqn:Hc;
      rewrite <- !app_assoc; cbn [app];
      (split; [reflexivity|]);
      (split; [cbn; now rewrite statements_app|]);
      (split; [exact D|]); right; eexists; split; reflexivity.
  - exists ([SelectPartitions (table_name self) (Some (schema self))
               (Ok children)] ++ evs), (statements evs), [].
    rewrite <- !app_assoc. cbn [app].
    split; [reflexivity|]. split; [cbn; now rewrite app_nil_r|].
    split; [exact D|now left].
Qed.

(** ** What [validate] answers *)

(** X19.  [validate] of the server generation answers true exactly when
    the catalog's row holds true and the policy, if there is one, has
    exactly one variant; it answers false exactly when the catalog reports
    the table absent and the policy, if there is one, has exactly one
    variant.  In every other case it raises. *)
Theorem server_validate_answers (env : environment)
    (self : PostgresTableModel) (h : history) :
  let reply := table_exists_reply env h (table_name self) (schema self) in
  let policy_fine :=
    retention_policy self = None
    \/ exists P, retention_policy self = Some P /\ exactly_one_variant P in
  (fst (Server.PostgresTableModel.validate env self h) = Ok true
   <-> reply = Ok (Some true) /\ policy_fine)
  /\ (fst (Server.PostgresTableModel.validate env self h) = Ok false
      <-> reported_absent reply /\ policy_fine).
Proof.
  cbv zeta. rewrite server_validate_run. cbn [fst]. unfold reported_absent.
  destruct (retention_policy self) as [P|].
  - destruct (Server.DataRetentionPolicy.validate P) as [v|e] eqn:Hv.
    + pose proof (validate_ok_is_true P v Hv) as ->.
      pose proof (validates_exactly_one P Hv) as Hone.
      destruct (table_exists_reply env h (table_name self) (schema self))
        as [[[|]|]|e]; cbn; split; split;
        try (intros [H _]; discriminate H);
        try (intros [[H|H] _]; discriminate H);
        try discriminate; intros _; split; eauto.
    + assert (Hnot : ~ exactly_one_variant P).
      { intros Hone. rewrite (exactly_one_validates P Hone) in Hv.
        discriminate. }
      destruct (table_exists_reply env h (table_name self) (schema self))
        as [[[|]|]|e0]; cbn; split; split; try discriminate;
        intros [_ [H | (P' & HP' & Hone)]]; try discriminate H;
        inversion HP'; subst; contradiction.
  - destruct (table_exists_reply env h (table_name self) (schema self))
      as [[[|]|]|e]; cbn; split; split;
      try (intros [H _]; discriminate H);
      try (intros [[H|H] _]; discriminate H);
      try discriminate; intros _; split; auto.
Qed.

(** X18.  [validate] of the script generation never answers false: it
    answers true whenever the existence query returned a row and the
    policy, if there is one, has exactly one variant, and raises otherwise.
    So the loop body of [main] never takes its "does not exist" branch: it
    does what [validate] does and then, on success, prunes. *)
Theorem legacy_validate_never_false
    (re_match : string -> string -> result bool) (env : environment)
    (self : PostgresTableModel) (h : history) :
  (forall b, fst (Legacy.PostgresTableModel.validate env self h) = Ok b ->
             b = true)
  /\ (fst (Legacy.PostgresTableModel.validate env self h) = Ok true
      <-> (exists b, table_exists_reply env h (table_name self) (schema self)
                     = Ok (Some b))
          /\ (retention_policy self = None
              \/ exists P, retention_policy self = Some P
                           /\ exactly_one_variant P))
  /\ Legacy.process_table re_match env self h
     = match Legacy.PostgresTableModel.validate env self h with
       | (Ok _, h1) =>
           match retention_policy self with
           | Some _ => Legacy.PostgresTableModel.prune re_match env self h1
           | None => (Ok tt, h1)
           end
       | (Raise e, h1) => (Raise e, h1)
       end.
Proof.
  assert (Htrue : forall b,
             fst (Legacy.PostgresTableModel.validate env self h) = Ok b ->
             b = true).
  { intros b. rewrite legacy_validate_run. cbn [fst].
    destruct (table_exists_reply env h (table_name self) (schema self))
      as [[x|]|e]; try discriminate.
    destruct (retention_policy self) as [P|].
    - change (Legacy.DataRetentionPolicy.validate P)
        with (Server.DataRetentionPolicy.validate P).
      destruct (Server.DataRetentionPolicy.validate P) as [v|e] eqn:Hv;
        [|discriminate].
      intros H. inversion H; subst. exact (validate_ok_is_true P b Hv).
    - intros H. now inversion H. }
  split; [exact Htrue|]. split.
  - rewrite legacy_validate_run. cbn [fst].
    destruct (table_exists_reply env h (table_name self) (schema self))
      as [[x|]|e].
    + destruct (retention_policy self) as [P|].
      * change (Legacy.DataRetentionPolicy.validate P)
          with (Server.DataRetentionPolicy.validate P).
        destruct (Server.DataRetentionPolicy.validate P) as [v|e] eqn:Hv.
        -- pose proof (validate_ok_is_true P v Hv) as ->.
           pose proof (validates_exactly_one P Hv) as Hone.
           split; [intros _|reflexivity]. split; eauto.
        -- split; [discriminate|].
           intros [_ [H | (P' & HP' & Hone)]]; [discriminate H|].
           inversion HP'; subst.
           rewrite (exactly_one_validates P' Hone) in Hv. discriminate.
      * split; [intros _|reflexivity]. split; eauto.
    + split; [discriminate|]. intros [[b H] _]. discriminate H.
    + split; [discriminate|]. intros [[b H] _]. discriminate H.
  - unfold Legacy.process_table, bind.
    destruct (Legacy.PostgresTableModel.validate env self h)
      as [[v|e] h1]; [|reflexivity].
    assert (Hv : v = true) by (apply Htrue; reflexivity).
    subst v. cbv [negb]. destruct (retention_policy self); reflexivity.
Qed.

(** ** The endpoint's outcomes *)

(** X12.  The outcome the endpoint records for a table has status error
    or success, never skipped.  It is success only if the catalog's row
    for the table held true, the policy has exactly one variant and the
    pruning ended without an exception. *)
Theorem server_outcome_error_or_success
    (re_match : string -> string -> result bool) (env : environment)
    (tc : Server.Api.ApiTableConfig) (h : history) :
  exists d h',
    Server.process_table re_match env tc h = (Ok d, h')
    /\ (Server.Response.status d = "error"%string
        \/ Server.Response.status d = "success"%string)
    /\ (Server.Response.status d = "success"%string ->
        table_exists_reply env h (Server.Api.table_name tc)
          (Server.Api.schema_name tc) = Ok (Some true)
        /\ (exists P, retention_policy (Server.table_model_of tc) = Some P
                      /\ exactly_one_variant P)
        /\ fst (Server.PostgresTableModel.prune re_match env
                  (Server.table_model_of tc)
                  (h ++ [existence_query env (Server.table_model_of tc) h]))
           = Ok tt).
Proof.
  unfold Server.process_table, Server.table_pass, try_except, bind.
  rewrite server_validate_run.
  set (self := Server.table_model_of tc).
  change (Server.Api.table_name tc) with (table_name self).
  change (Server.Api.schema_name tc) with (schema self).
  assert (HP : exists P, retention_policy self = Some P)
    by (eexists; reflexivity).
  destruct HP as [P HP]. rewrite HP.
  destruct (table_exists_reply env h (table_name self) (schema self))
    as [row|e].
  2:{ destruct (is_ValueError e); eexists; eexists;
        (split; [reflexivity|]); (split; [now left|]); discriminate. }
  cbv zeta.
  destruct (Server.DataRetentionPolicy.validate P) as [v|e] eqn:Hv.
  2:{ destruct (is_ValueError e); eexists; eexists;
        (split; [reflexivity|]); (split; [now left|]); discriminate. }
  pose proof (validate_ok_is_true P v Hv) as ->. rewrite andb_true_r.
  pose proof (validates_exactly_one P Hv) as Hone.
  destruct row as [[|]|]; cbv [negb];
    try (eexists; eexists; (split; [reflexivity|]); (split; [now left|]);
         discriminate).
  destruct (Server.PostgresTableModel.prune re_match env self
              (h ++ [existence_query env self h]))
    as [[[]|e] h2] eqn:Hp; cbv beta; rewrite ?Hp.
  - eexists; eexists. split; [reflexivity|]. split; [now right|].
    intros _. split; [reflexivity|]. split; [|reflexivity].
    now exists P.
  - destruct (is_ValueError e); eexists; eexists;
      (split; [reflexivity|]); (split; [now left|]); discriminate.
Qed.

(** X13.  The request validator and the domain validator agree: the
    [root_validator] of the request's policy accepts it (returning it
    unchanged) exactly when [validate] accepts the domain policy the
    endpoint builds from it, and rejects it with a [ValueError] exactly
    when [validate] raises one.  The domain model is the request's element
    field by field: the table and schema names are the request's, the
    time retention holds the request's column and seconds, and a list of
    conditions that is not empty is converted element by element, in
    order, each condition keeping its column, operator and value; an empty
    list of conditions counts as no conditions on both sides. *)
Theorem api_validator_agrees_with_domain (tc : Server.Api.ApiTableConfig)
    (P : DataRetentionPolicy) :
  retention_policy (Server.table_model_of tc) = Some P ->
  (Server.Api.check_timeretention_or_conditions
     (Server.Api.retention_policy tc) = Ok (Server.Api.retention_policy tc)
   <-> Server.DataRetentionPolicy.validate P = Ok true)
  /\ ((exists msg, Server.Api.check_timeretention_or_conditions
                     (Server.Api.retention_policy tc)
                   = Raise (ValueError msg))
      <-> exists msg, Server.DataRetentionPolicy.validate P
                      = Raise (ValueError msg))
  /\ table_name (Server.table_model_of tc) = Server.Api.table_name tc
  /\ schema (Server.table_model_of tc) = Server.Api.schema_name tc
  /\ converted_time_retention
       (Server.Api.timeretention (Server.Api.retention_policy tc))
       (timeretention P)
  /\ converted_conditions
       (Server.Api.conditions (Server.Api.retention_policy tc))
       (conditions P).
Proof.
  intros HP. cbn in HP. inversion HP as [HP']. clear HP HP'.
  unfold Server.Api.check_timeretention_or_conditions,
    Server.DataRetentionPolicy.validate, timeretention_set, conditions_set,
    converted_time_retention, converted_conditions.
  cbn [timeretention conditions table_name schema Server.table_model_of].
  assert (Hmap : forall l : list Server.Api.ApiDataRetentionPolicyConditions,
             Forall2 same_condition l
               (map (fun cond => {| column := Server.Api.column cond;
                                    operator := Server.Api.operator cond;
                                    value := Server.Api.value cond |}) l)).
  { induction l as [|a l IH]; constructor; [|exact IH].
    repeat split. }
  destruct (Server.Api.timeretention (Server.Api.retention_policy tc)) as [tr|];
    destruct (Server.Api.conditions (Server.Api.retention_policy tc))
      as [[|c cs]|]; cbn [negb andb];
    (split; [split; try reflexivity; discriminate|]);
    (split; [split; intros [msg H]; try discriminate H; eexists; reflexivity|]);
    (split; [reflexivity|]); (split; [reflexivity|]); split;
    first [ reflexivity
          | eexists; split;
            [ reflexivity
            | first [ apply (Hmap (c :: cs)) | repeat split ] ] ].
Qed.

(** X14.  A table that exists, with a policy of conditions only: the
    server generation's rows-by-condition path is a placeholder.  The
    endpoint sends the existence query and nothing else -- no DELETE, no
    commit -- prints that the deletion is not implemented, and records a
    success for the table. *)
Theorem server_conditions_policy_deletes_nothing
    (re_match : string -> string -> result bool) (env : environment)
    (tc : Server.Api.ApiTableConfig) (h : history)
    (c : Server.Api.ApiDataRetentionPolicyConditions)
    (cs : list Server.Api.ApiDataRetentionPolicyConditions) :
  Server.Api.timeretention (Server.Api.retention_policy tc) = None ->
  Server.Api.conditions (Server.Api.retention_policy tc) = Some (c :: cs) ->
  table_exists_reply env h (Server.Api.table_name tc)
    (Server.Api.schema_name tc) = Ok (Some true) ->
  Server.process_table re_match env tc h
  = (Ok (Server.detail tc "success"
           (Server.Response.SuccessfullyProcessed
              (Server.Api.schema_name tc) (Server.Api.table_name tc))),
     h ++ [SelectTableExists (Server.Api.table_name tc)
             (Server.Api.schema_name tc) (Ok (Some true));
           Printed ConditionsNotImplemented]).
Proof.
  intros Ht Hc Hr.
  unfold Server.process_table, Server.table_pass, try_except, bind.
  rewrite server_validate_run. unfold existence_query.
  unfold Server.table_model_of. cbn [table_name schema retention_policy].
  rewrite Hr, Ht, Hc. cbn. rewrite <- app_assoc. reflexivity.
Qed.

(** ** Opening and closing the session *)

(** X15.  When the session cannot be opened, [prune_tables] raises an
    [HTTPException] without an outcome for any table: 503 when
    [psycopg.connect] raised an [OperationalError], and 500 for anything
    else that is not an [HTTPException] already, the other errors of
    [psycopg] included.  Nothing is sent to the database and there is
    nothing to close. *)
Theorem prune_tables_without_connection
    (re_match : string -> string -> result bool) (env : environment)
    (tables : list Server.Api.ApiTableConfig) (h : history) (e : exn) :
  connect_reply env h = Raise e ->
  Server.prune_tables re_match env tables h
  = (Raise (if Server.is_OperationalError e then HTTPException 503 e
            else if is_HTTPException e then e
            else HTTPException 500 e),
     h ++ [Connect (Raise e)]).
Proof.
  intros Hc.
  unfold Server.prune_tables, Server.reraise_as_http,
    Server.get_postgres_connection, bind, try_except, connect, raise.
  rewrite Hc. destruct (Server.is_OperationalError e); [reflexivity|].
  destruct (is_HTTPException e); reflexivity.
Qed.

(** X16.  [health_check] never raises and always reports the status
    healthy; [database_accessible] is true exactly when the session could
    be opened, and a session that was opened is closed again.  No
    statement is sent. *)
Theorem health_check_reports_connection (env : environment) (h : history) :
  Server.health_check env h
  = (Ok {| Server.Health.status := "healthy";
           Server.Health.database_accessible :=
             match connect_reply env h with
             | Ok _ => true
             | Raise _ => false
             end |},
     h ++ Connect (connect_reply env h)
          :: match connect_reply env h with
             | Ok _ => [Close]
             | Raise _ => []
             end).
Proof.
  unfold Server.health_check, Server.get_postgres_connection, bind,
    try_except, connect, close, ret, raise.
  destruct (connect_reply env h) as [[]|e].
  - rewrite <- app_assoc. reflexivity.
  - destruct (Server.is_OperationalError e); reflexivity.
Qed.

Lemma api_validator_agrees_with_domain_witness :
  Server.Api.check_timeretention_or_conditions api_both_policy
  = Ok api_both_policy
  <-> Server.DataRetentionPolicy.validate both_policy = Ok true.
Proof.
  exact (proj1 (api_validator_agrees_with_domain
                  (api_table "events" api_both_policy) both_policy eq_refl)).
Defined.

Lemma server_conditions_policy_deletes_nothing_witness :
  Server.process_table re_match_lib events_database
    (api_table "events" api_conditions_policy) []
  = (Ok (Server.detail (api_table "events" api_conditions_policy) "success"
           (Server.Response.SuccessfullyProcessed "public" "events")),
     [] ++ [SelectTableExists "events" "public" (Ok (Some true));
            Printed ConditionsNotImplemented]).
Proof.
  exact (server_conditions_policy_deletes_nothing re_match_lib events_database
           (api_table "events" api_conditions_policy) [] _ _
           eq_refl eq_refl eq_refl).
Defined.

Lemma prune_tables_without_connection_witness :
  Server.prune_tables re_match_lib unreachable_database two_table_request []
  = (Raise (HTTPException 503 (OperationalError "connection refused")),
     [] ++ [Connect (Raise (OperationalError "connection refused"))]).
Proof.
  exact (prune_tables_without_connection re_match_lib unreachable_database
           two_table_request [] (OperationalError "connection refused")
           eq_refl).
Defined.

(** An error of [psycopg] that is no [OperationalError] is not caught by
    [get_postgres_connection]: the endpoint answers 500. *)
Example prune_tables_other_connection_error :
  Server.prune_tables re_match_lib misconfigured_database two_table_request []
  = (Raise (HTTPException 500 (DbError "invalid connection option")),
     [Connect (Raise (DbError "invalid connection option"))]).
Proof. reflexivity. Qed.

Lemma server_step_raises_witness :
  re_match_lib (partition_pattern (table_name test_table1))
    "test_table1_p20200101_000000" = Raise OverflowError
  \/ OverflowError = OverflowError.
Proof.
  apply (server_step_raises re_match_lib fresh_partition_database test_table1
           (10 ^ 20) "test_table1_p20200101_000000" [] OverflowError).
  vm_compute. reflexivity.
Defined.

(** ** What a batch can drop *)

Section BatchFrame.
Variable re_match : string -> string -> result bool.
Variable env : environment.

(** What the request asks for a table: the seconds of its time retention. *)
Lemma table_model_retention (tc : Server.Api.ApiTableConfig)
    (P : DataRetentionPolicy) (tr : DataRetentionPolicyTimeRetention) :
  retention_policy (Server.table_model_of tc) = Some P ->
  timeretention P = Some tr ->
  exists atr,
    Server.Api.timeretention (Server.Api.retention_policy tc) = Some atr
    /\ retention_seconds tr = Server.Api.retention_seconds atr.
Proof.
  intros HP Htr. cbn in HP. inversion HP; subst P. cbn in Htr.
  destruct (Server.Api.timeretention (Server.Api.retention_policy tc))
    as [atr|]; [|discriminate].
  inversion Htr. exists atr. split; reflexivity.
Qed.

Lemma server_prune_due (self : PostgresTableModel) (h : history) :
  exists evs,
    snd (Server.PostgresTableModel.prune re_match env self h) = h ++ evs
    /\ forall before s n, In (before, (s, n)) (drops_at h evs) ->
         s = schema self
         /\ exists P tr,
              retention_policy self = Some P /\ timeretention P = Some tr
              /\ dropped_when_due re_match env self (retention_seconds tr)
                   before n.
Proof.
  unfold Server.PostgresTableModel.prune.
  destruct (retention_policy self) as [P|] eqn:HP;
    [|exists []; rewrite app_nil_r; split; [reflexivity|contradiction]].
  destruct (timeretention_set P).
  - destruct (server_pass_due re_match env self h) as (evs & Hevs & F).
    exists evs. split; [exact Hevs|].
    intros before s n Hin.
    destruct (F before s n Hin) as (Hs & _ & P' & tr & HP' & Htr & He).
    split; [exact Hs|]. exists P', tr. rewrite <- HP, HP'. now repeat split.
  - destruct (conditions_set P) eqn:Hc.
    + unfold Server.PostgresTableModel._delete_records_by_condition.
      rewrite HP, Hc. eexists. split; [reflexivity|contradiction].
    + exists []. rewrite app_nil_r. split; [reflexivity|contradiction].
Qed.

Lemma server_process_table_due (tc : Server.Api.ApiTableConfig)
    (h : history) :
  exists evs,
    snd (Server.process_table re_match env tc h) = h ++ evs
    /\ forall before s n, In (before, (s, n)) (drops_at h evs) ->
         s = Server.Api.schema_name tc
         /\ exists atr,
              Server.Api.timeretention (Server.Api.retention_policy tc)
              = Some atr
              /\ dropped_when_due re_match env (Server.table_model_of tc)
                   (Server.Api.retention_seconds atr) before n.
Proof.
  destruct (process_table_returns re_match env tc h)
    as (d & h' & Hd & _ & Hh & _).
  rewrite Hd. cbn [snd]. subst h'.
  unfold Server.table_pass, bind. rewrite server_validate_run.
  set (q := existence_query env (Server.table_model_of tc) h).
  destruct (match table_exists_reply env h _ _ with
            | Ok row => _ | Raise e => Raise e end) as [[|]|e].
  - cbv [negb].
    change (retention_policy (Server.table_model_of tc))
      with (Some (match retention_policy (Server.table_model_of tc) with
                  | Some p => p | None => time_policy 0 end)).
    cbv iota.
    destruct (server_prune_due (Server.table_model_of tc) (h ++ [q]))
      as (evs & Hevs & F).
    assert (G : forall before s n,
               In (before, (s, n)) (drops_at h (q :: evs)) ->
               s = Server.Api.schema_name tc
               /\ exists atr,
                    Server.Api.timeretention (Server.Api.retention_policy tc)
                    = Some atr
                    /\ dropped_when_due re_match env (Server.table_model_of tc)
                         (Server.Api.retention_seconds atr) before n).
    { intros before s n Hin. cbn [drops_at q existence_query app] in Hin.
      destruct (F before s n Hin) as (Hs & P & tr & HP & Htr & He).
      split; [exact Hs|].
      destruct (table_model_retention tc P tr HP Htr) as (atr & Ha & Hsec).
      exists atr. split; [exact Ha|]. now rewrite <- Hsec. }
    destruct (Server.PostgresTableModel.prune re_match env
                (Server.table_model_of tc) (h ++ [q])) as [[u|e] h2];
      cbn [snd] in Hevs |- *; subst h2;
      exists (q :: evs); rewrite <- app_assoc;
      (split; [reflexivity|]); exact G.
  - exists [q]. split; [reflexivity|contradiction].
  - exists [q]. split; [reflexivity|contradiction].
Qed.

Lemma server_process_tables_due (tables : list Server.Api.ApiTableConfig) :
  forall (acc : list Server.Response.PruneResponseDetail) (h : history),
  exists evs,
    snd (Server.process_tables re_match env tables acc h) = h ++ evs
    /\ forall before s n, In (before, (s, n)) (drops_at h evs) ->
         exists tc atr,
           In tc tables /\ s = Server.Api.schema_name tc
           /\ Server.Api.timeretention (Server.Api.retention_policy tc)
              = Some atr
           /\ dropped_when_due re_match env (Server.table_model_of tc)
                (Server.Api.retention_seconds atr) before n.
Proof.
  induction tables as [|tc tcs IH]; intros acc h.
  - exists []. cbn. rewrite app_nil_r. split; [reflexivity|contradiction].
  - destruct (server_process_table_due tc h) as (evs1 & H1 & F1).
    destruct (process_table_returns re_match env tc h)
      as (d & h1 & Hd & _ & _ & _).
    cbn [Server.process_tables]. unfold bind. rewrite Hd in *.
    cbn [snd] in H1. subst h1.
    destruct (IH (acc ++ [d]) (h ++ evs1)) as (evs2 & H2 & F2).
    exists (evs1 ++ evs2). rewrite H2, app_assoc. split; [reflexivity|].
    intros before s n. rewrite drops_at_app, in_app_iff. intros [Hin|Hin].
    + destruct (F1 before s n Hin) as (Hs & atr & Ha & He). exists tc, atr.
      split; [now left|]. repeat split; assumption.
    + destruct (F2 before s n Hin) as (tc' & atr & Hin' & Hs & Ha & He).
      exists tc', atr. split; [now right|]. repeat split; assumption.
Qed.

(** X20.  Whatever the session and the clock answer, every DROP TABLE a
    call of [prune_tables] sends is for a table of the request that asks
    for time retention: it is in that table's schema, and it is sent right
    after a reading of the UTC clock (the clock's answer at that point of
    this call), the partition's name passing that table's filter and
    decoding to a timestamp strictly before that reading minus the
    retention seconds the request gives for that table.  [drops_at] lists
    every DROP of the call.  A request without tables drops nothing. *)
Theorem prune_tables_drops_only_requested_partitions
    (tables : list Server.Api.ApiTableConfig) (h : history) :
  exists evs,
    snd (Server.prune_tables re_match env tables h) = h ++ evs
    /\ map snd (drops_at h evs) = drops evs
    /\ forall before s n, In (before, (s, n)) (drops_at h evs) ->
         exists tc atr,
           In tc tables /\ s = Server.Api.schema_name tc
           /\ Server.Api.timeretention (Server.Api.retention_policy tc)
              = Some atr
           /\ dropped_when_due re_match env (Server.table_model_of tc)
                (Server.Api.retention_seconds atr) before n.
Proof.
  unfold Server.prune_tables, Server.reraise_as_http,
    Server.get_postgres_connection, bind, try_except, try_finally,
    connect, close, raise.
  destruct (connect_reply env h) as [[]|e].
  - destruct (server_process_tables_due tables []
                (h ++ [Connect (Ok tt)])) as (evs & Hevs & F).
    destruct (process_tables_run re_match env tables []
                (h ++ [Connect (Ok tt)])) as (ds & h' & Hrun & _).
    rewrite Hrun in *. cbn [snd] in Hevs |- *. subst h'.
    exists (Connect (Ok tt) :: evs ++ [Close]).
    rewrite <- !app_assoc. split; [reflexivity|].
    split; [apply drops_at_drops|].
    cbn [drops_at app]. rewrite drops_at_app. cbn [drops_at app].
    rewrite app_nil_r. exact F.
  - exists [Connect (Raise e)].
    split; [|split; [reflexivity|contradiction]].
    destruct (Server.is_OperationalError e); [reflexivity|].
    destruct (is_HTTPException e); reflexivity.
Qed.

End BatchFrame.

(** ** A retention too long for [timedelta] *)

Lemma for_each_app {A} (body : A -> M unit) (a b : list A) :
  forall h,
    for_each body (a ++ b) h =
    match for_each body a h with
    | (Ok _, h1) => for_each body b h1
    | (Raise e, h1) => (Raise e, h1)
    end.
Proof.
  induction a as [|x a IH]; intros h; [reflexivity|].
  cbn [app]. rewrite !for_each_cons.
  destruct (body x h) as [[u|e] h1]; [apply IH|reflexivity].
Qed.

(** X21.  A retention of more than 999999999 days, either way, is more
    than [timedelta] holds.  The server generation builds the [timedelta]
    only once a partition has passed the filter and decoded: the pass
    skips the unrecognised partitions before the first such partition and
    then raises [OverflowError], having sent no DROP and no commit. *)
Theorem server_retention_out_of_range
    (re_match : string -> string -> result bool) (env : environment)
    (self : PostgresTableModel) (P : DataRetentionPolicy)
    (tr : DataRetentionPolicyTimeRetention)
    (skipped : list string) (name : string) (rest : list string)
    (dt : datetime) (h : history) :
  retention_policy self = Some P ->
  timeretention P = Some tr ->
  (999999999 < retention_seconds tr / 86400
   \/ retention_seconds tr / 86400 < -999999999)%Z ->
  partitions_reply env h (table_name self) (Some (schema self))
  = Ok (skipped ++ name :: rest) ->
  Forall (unrecognised re_match self) skipped ->
  re_match (partition_pattern (table_name self)) name = Ok true ->
  Server.PostgresTableModel.partition_datetime name = Ok dt ->
  Server.PostgresTableModel._drop_table_partitions re_match env self h
  = (Raise OverflowError,
     h ++ SelectPartitions (table_name self) (Some (schema self))
            (Ok (skipped ++ name :: rest))
          :: map (skip_note re_match self) skipped).
Proof.
  intros HP Htr Hrange Hq Hskip Hm Hd.
  assert (Ht : timedelta_seconds (retention_seconds tr) = Raise OverflowError).
  { unfold timedelta_seconds.
    destruct (Z.leb_spec (-999999999) (retention_seconds tr / 86400));
      destruct (Z.leb_spec (retention_seconds tr / 86400) 999999999);
      cbn [andb]; try reflexivity; lia. }
  unfold Server.PostgresTableModel._drop_table_partitions. run_M.
  rewrite Hq, HP, Htr, for_each_app.
  rewrite (server_loop_skips re_match env self (retention_seconds tr)
             skipped Hskip).
  rewrite for_each_cons, server_step_run, Hm, Hd, Ht.
  rewrite <- app_assoc. reflexivity.
Qed.

Lemma server_retention_out_of_range_witness :
  Server.PostgresTableModel._drop_table_partitions re_match_lib
    mixed_database (table_with "events" (time_policy (10 ^ 15))) []
  = (Raise OverflowError,
     [] ++ SelectPartitions "events" (Some "public"%string)
             (Ok (["events_pARCHIVE"%string]
                  ++ "events_p20200101_000000"%string
                     :: ["events_p20200102_000000"%string]))
           :: map (skip_note re_match_lib
                     (table_with "events" (time_policy (10 ^ 15))))
                ["events_pARCHIVE"%string]).
Proof.
  apply (server_retention_out_of_range re_match_lib mixed_database
           (table_with "events" (time_policy (10 ^ 15)))
           (time_policy (10 ^ 15))
           {| dt_target_column := "mtime"; retention_seconds := 10 ^ 15 |}
           ["events_pARCHIVE"%string] "events_p20200101_000000"
           ["events_p20200102_000000"%string]
           (mk_datetime 2020 1 1 0 0 0 0) []).
  - reflexivity.
  - reflexivity.
  - left. vm_compute. reflexivity.
  - reflexivity.
  - constructor; [|constructor]. left. vm_compute. reflexivity.
  - vm_compute. reflexivity.
  - vm_compute. reflexivity.
Defined.
